(** * Muffin full-range multi-tier pool: embedding and verification

    Shallow embedding of [muffin_fullrange.py]: the [Pool] class with its
    [swap] and [_calc_tier_amts_in] methods and the two module-level price
    functions [calc_sqrt_p_from_amt] and [calc_amt_from_sqrt_p].

    Numbers.  The program computes on numpy [float64] arrays.  It is embedded
    twice, line by line both times.

    - The first embedding idealises every number as an exact rational ([Q]):
      rounding, overflow, infinities and NaN are outside it.  Division by
      zero, which numpy answers with a warning and inf or nan, is [Qdiv]'s
      [x / 0 = 0] there; every theorem that depends on a quotient proves its
      divisor non-zero.  It carries the statements that rest on the loop's
      test, on the masked writes or on a formula as written, and it shows
      what the program computes in exact arithmetic; the lemmas named
      [exact_...] hold there and not of the [float64] program.

    - The second embedding, module [F64], computes on binary64 numbers with
      the IEEE 754 operations, comparisons and NaN, and with numpy's pairwise
      [np.sum].  What is stated of the program's own numbers (rounded sums,
      prices that do not move, overflow, NaN, an emptied mask) is stated and
      evaluated there.

    Arrays.  A one-dimensional numpy array is a [list]; boolean-mask indexing
    [a[mask]] is [Np.select], masked assignment [a[mask] = v] is [Np.put].
    numpy raises on operands of different shapes; the embedding truncates to the
    shorter operand instead, and the theorems are stated for pools whose arrays
    all have [size] entries ([aligned]). *)

From Stdlib Require Import QArith Qfield Lqa List Bool Arith Lia PrimFloat.
From Stdlib Require Floats.
Import ListNotations.
Open Scope Q_scope.

Set Implicit Arguments.

(* ------------------------------------------------------------------ *)
(** ** The numpy operations the program uses *)

Module Np.

Definition ndarray := list Q.

(** [np.zeros(n)] *)
Definition zeros (n : nat) : ndarray := repeat 0 n.

(** [np.full(n, v)] *)
Definition full (A : Type) (n : nat) (v : A) : list A := repeat v n.

(** elementwise binary operation on two arrays *)
Fixpoint map2 (A B C : Type) (f : A -> B -> C) (xs : list A) (ys : list B) : list C :=
  match xs, ys with
  | x :: xs', y :: ys' => f x y :: map2 f xs' ys'
  | _, _ => []
  end.

(** elementwise ternary operation on three arrays *)
Fixpoint map3 (A B C D : Type) (f : A -> B -> C -> D)
         (xs : list A) (ys : list B) (zs : list C) : list D :=
  match xs, ys, zs with
  | x :: xs', y :: ys', z :: zs' => f x y z :: map3 f xs' ys' zs'
  | _, _, _ => []
  end.

Definition add : ndarray -> ndarray -> ndarray := map2 Qplus.
Definition sub : ndarray -> ndarray -> ndarray := map2 Qminus.
Definition mul : ndarray -> ndarray -> ndarray := map2 Qmult.
Definition div : ndarray -> ndarray -> ndarray := map2 Qdiv.

(** array (op) scalar, the scalar broadcast over the array *)
Definition mul_s (xs : ndarray) (s : Q) : ndarray := map (fun x => x * s) xs.
Definition div_s (xs : ndarray) (s : Q) : ndarray := map (fun x => x / s) xs.

(** [xs ** 2] *)
Definition sqr (xs : ndarray) : ndarray := map (fun x => x ^ 2) xs.

(** [np.sum(xs)] *)
Definition sum (xs : ndarray) : Q := fold_right Qplus 0 xs.

(** [np.all(bs)] *)
Definition all (bs : list bool) : bool := forallb (fun b => b) bs.

(** [xs >= 0] *)
Definition ge0 (xs : ndarray) : list bool := map (Qle_bool 0) xs.

(** [~mask] *)
Definition invert (mask : list bool) : list bool := map negb mask.

(** [mask & bs] *)
Definition and_ (mask bs : list bool) : list bool := map2 andb mask bs.

(** [xs[mask]]: the entries of [xs] at the positions where [mask] holds,
    in order. *)
Fixpoint select (A : Type) (mask : list bool) (xs : list A) : list A :=
  match mask, xs with
  | b :: mask', x :: xs' =>
      if b then x :: select mask' xs' else select mask' xs'
  | _, _ => []
  end.

(** [xs[mask] = vals]: the positions of [xs] where [mask] holds are
    overwritten, in order, with the entries of [vals]. *)
Fixpoint put (A : Type) (mask : list bool) (xs vals : list A) : list A :=
  match mask, xs with
  | b :: mask', x :: xs' =>
      if b then
        match vals with
        | v :: vals' => v :: put mask' xs' vals'
        | [] => x :: put mask' xs' []
        end
      else x :: put mask' xs' vals
  | _, _ => xs
  end.

(** [xs[mask] = v] with a scalar [v] *)
Fixpoint put_scalar (A : Type) (mask : list bool) (xs : list A) (v : A) : list A :=
  match mask, xs with
  | b :: mask', x :: xs' => (if b then v else x) :: put_scalar mask' xs' v
  | _, _ => xs
  end.

(** [np.where(mask, xs, ys)]; the program does not call it, the lemmas
    below use it to describe a masked assignment position by position. *)
Fixpoint where_ (A : Type) (mask : list bool) (xs ys : list A) : list A :=
  match mask, xs, ys with
  | b :: mask', x :: xs', y :: ys' => (if b then x else y) :: where_ mask' xs' ys'
  | _, _, _ => []
  end.

(** number of [True] entries of a mask *)
Definition count (mask : list bool) : nat := length (filter (fun b => b) mask).

End Np.

(* ------------------------------------------------------------------ *)
(** ** Price algebra: the two module-level functions *)

Definition calc_sqrt_p_from_amt (is_token0 : bool) (sqrt_p0 liquidity amt : Q) : Q :=
  if is_token0
  then (liquidity * sqrt_p0) / (liquidity + (amt * sqrt_p0))
  else sqrt_p0 + (amt / liquidity).

Definition calc_amt_from_sqrt_p (is_token0 : bool) (sqrt_p0 sqrt_p1 liquidity : Q) : Q :=
  if is_token0
  then liquidity * (sqrt_p0 - sqrt_p1) / (sqrt_p0 * sqrt_p1)
  else liquidity * (sqrt_p1 - sqrt_p0).

(* ------------------------------------------------------------------ *)
(** ** Pool state *)

Record Pool : Type := mkPool {
  size : nat;
  liquidity_arr : Np.ndarray;
  sqrt_p_arr : Np.ndarray;
  sqrt_gamma_arr : Np.ndarray;
  fee0_growth_arr : Np.ndarray;
  fee1_growth_arr : Np.ndarray
}.

(** What a call can end in.  [AssertionError] is a failed [assert];
    [OutOfFuel] is the embedding's own outcome for a [while True] loop that
    has not reached its [break] within the fuel it was given. *)
Inductive result (A : Type) : Type :=
| Ok (a : A)
| AssertionError
| OutOfFuel.

Arguments AssertionError {A}.
Arguments OutOfFuel {A}.

(** [Pool.__init__]: no argument is inspected, the arrays are built from
    whatever is passed. *)
Definition Pool_init (liquidity_arr sqrt_gamma_arr : list Q) (sqrt_p : Q) : result Pool :=
  let size := length liquidity_arr in
  Ok {| size := size;
        sqrt_gamma_arr := sqrt_gamma_arr;
        liquidity_arr := liquidity_arr;
        sqrt_p_arr := repeat sqrt_p (length liquidity_arr);
        fee0_growth_arr := repeat 0 size;
        fee1_growth_arr := repeat 0 size |}.

(** The default arguments of [__init__]. *)
Definition default_liquidity_arr : list Q := [10000; 10000].
Definition default_sqrt_gamma_arr : list Q := [9985 # 10000; 9997 # 10000].
Definition default_sqrt_p : Q := 1.

(** The pool [Pool()] builds from them. *)
Definition default_pool : Pool :=
  {| size := 2;
     liquidity_arr := [10000; 10000];
     sqrt_p_arr := [1; 1];
     sqrt_gamma_arr := [9985 # 10000; 9997 # 10000];
     fee0_growth_arr := [0; 0];
     fee1_growth_arr := [0; 0] |}.

(* ------------------------------------------------------------------ *)
(** ** The tier allocator, [Pool._calc_tier_amts_in] *)

(** [lsg]: liquidity divided by sqrt_gamma *)
Definition lsg_of (self : Pool) : Np.ndarray :=
  Np.div (liquidity_arr self) (sqrt_gamma_arr self).

(** [res]: token reserve divided by gamma *)
Definition res_of (self : Pool) (is_token0 : bool) : Np.ndarray :=
  let gamma := Np.sqr (sqrt_gamma_arr self) in
  if is_token0
  then Np.div (Np.div (liquidity_arr self) (sqrt_p_arr self)) gamma
  else Np.div (Np.mul (liquidity_arr self) (sqrt_p_arr self)) gamma.

(** The assignment that opens the loop body:
    [amts[mask] = (lsg[mask] * (amount + np.sum(res[mask])) / np.sum(lsg[mask])) - res[mask]] *)
Definition assign_amts (lsg res : Np.ndarray) (amount : Q)
           (mask : list bool) (amts : Np.ndarray) : Np.ndarray :=
  Np.put mask amts
    (Np.sub
       (Np.div_s (Np.mul_s (Np.select mask lsg) (amount + Np.sum (Np.select mask res)))
                 (Np.sum (Np.select mask lsg)))
       (Np.select mask res)).

(** The array that assignment gathers from: the allocation formula applied to
    every tier, with the sums taken over the active tiers. *)
Definition unconstrained (lsg res : Np.ndarray) (amount : Q) (mask : list bool) : Np.ndarray :=
  Np.sub
    (Np.div_s (Np.mul_s lsg (amount + Np.sum (Np.select mask res)))
              (Np.sum (Np.select mask lsg)))
    res.

(** The test of the loop body: [np.all(amts[mask] >= 0)] *)
Definition feasible (mask : list bool) (amts : Np.ndarray) : bool :=
  Np.all (Np.ge0 (Np.select mask amts)).

(** The [while True] loop.  One unit of fuel is one execution of the body. *)
Fixpoint calc_loop (fuel : nat) (lsg res : Np.ndarray) (amount : Q)
         (mask : list bool) (amts : Np.ndarray) : option (Np.ndarray * list bool) :=
  match fuel with
  | O => None
  | S fuel' =>
      let amts := assign_amts lsg res amount mask amts in
      if feasible mask amts
      then Some (Np.put_scalar (Np.invert mask) amts 0, mask)
      else calc_loop fuel' lsg res amount (Np.and_ mask (Np.ge0 amts)) amts
  end.

Definition _calc_tier_amts_in (self : Pool) (is_token0 : bool) (amount : Q)
  : result (Np.ndarray * list bool) :=
  if negb (Qle_bool 0 amount) then AssertionError
  else
    let lsg := lsg_of self in
    let res := res_of self is_token0 in
    let mask := Np.full (size self) true in
    let amts := Np.zeros (size self) in
    match calc_loop (S (size self)) lsg res amount mask amts with
    | Some r => Ok r
    | None => OutOfFuel
    end.

(* ------------------------------------------------------------------ *)
(** ** The swap orchestrator, [Pool.swap] *)

Record SwapResult : Type := mkSwapResult {
  amt_in : Q;
  amt_out : Q;
  fee_amt : Q;
  fee_bps : Q;
  amts_in : Np.ndarray;
  amts_out : Np.ndarray;
  fee_amts : Np.ndarray
}.

(** A method runs on the pool it is called on and leaves a pool behind,
    whether it returns or raises. *)
Definition M (A : Type) : Type := Pool -> result A * Pool.

Definition ret (A : Type) (a : A) : M A := fun self => (Ok a, self).

Definition bind (A B : Type) (m : M A) (k : A -> M B) : M B :=
  fun self =>
    match m self with
    | (Ok a, self') => k a self'
    | (AssertionError, self') => (AssertionError, self')
    | (OutOfFuel, self') => (OutOfFuel, self')
    end.

Definition assert_ (b : bool) : M unit :=
  fun self => if b then (Ok tt, self) else (AssertionError, self).

(** reading [self] *)
Definition get : M Pool := fun self => (Ok self, self).

(** calling a method that only reads [self] *)
Definition call (A : Type) (f : Pool -> result A) : M A :=
  fun self => (f self, self).

(** [self.sqrt_p_arr[mask] = vals] *)
Definition set_sqrt_p_arr (mask : list bool) (vals : Np.ndarray) : M unit :=
  fun self =>
    (Ok tt,
     {| size := size self;
        liquidity_arr := liquidity_arr self;
        sqrt_p_arr := Np.put mask (sqrt_p_arr self) vals;
        sqrt_gamma_arr := sqrt_gamma_arr self;
        fee0_growth_arr := fee0_growth_arr self;
        fee1_growth_arr := fee1_growth_arr self |}).

(** [fee_growth_arr[mask] += vals], where [fee_growth_arr] is
    [self.fee0_growth_arr] when [use_fee0] and [self.fee1_growth_arr]
    otherwise. *)
Definition add_fee_growth (use_fee0 : bool) (mask : list bool) (vals : Np.ndarray) : M unit :=
  fun self =>
    let grow (arr : Np.ndarray) := Np.put mask arr (Np.add (Np.select mask arr) vals) in
    (Ok tt,
     {| size := size self;
        liquidity_arr := liquidity_arr self;
        sqrt_p_arr := sqrt_p_arr self;
        sqrt_gamma_arr := sqrt_gamma_arr self;
        fee0_growth_arr := if use_fee0 then grow (fee0_growth_arr self) else fee0_growth_arr self;
        fee1_growth_arr := if use_fee0 then fee1_growth_arr self else grow (fee1_growth_arr self) |}).

Declare Scope pool_scope.
Delimit Scope pool_scope with pool.
Notation "x <- m ;; k" := (bind m (fun x => k))
  (at level 61, m at next level, right associativity) : pool_scope.
Notation "m ;;; k" := (bind m (fun _ => k))
  (at level 61, right associativity) : pool_scope.

Definition swap (is_token0 : bool) (amt_desired : Q) : M SwapResult :=
  (let is_exact_in := negb (Qle_bool amt_desired 0) in
   assert_ is_exact_in ;;;
   r <- call (fun self => _calc_tier_amts_in self is_token0 amt_desired) ;;
   let '(amts_in, mask) := r in
   self <- get ;;
   let gamma := Np.sqr (sqrt_gamma_arr self) in
   let amts_in_after_fee :=
     Np.put mask (Np.zeros (size self))
            (Np.mul (Np.select mask amts_in) (Np.select mask gamma)) in
   let sqrt_p_new :=
     Np.put mask (Np.zeros (size self))
            (Np.map3 (calc_sqrt_p_from_amt is_token0)
                     (Np.select mask (sqrt_p_arr self))
                     (Np.select mask (liquidity_arr self))
                     (Np.select mask amts_in_after_fee)) in
   let amts_out :=
     Np.put mask (Np.zeros (size self))
            (Np.map3 (calc_amt_from_sqrt_p (negb is_token0))
                     (Np.select mask (sqrt_p_arr self))
                     (Np.select mask sqrt_p_new)
                     (Np.select mask (liquidity_arr self))) in
   let fee_amts :=
     Np.put mask (Np.zeros (size self))
            (Np.sub (Np.select mask amts_in) (Np.select mask amts_in_after_fee)) in
   set_sqrt_p_arr mask (Np.select mask sqrt_p_new) ;;;
   add_fee_growth (Bool.eqb is_token0 is_exact_in) mask
                  (Np.div (Np.select mask fee_amts) (Np.select mask (liquidity_arr self))) ;;;
   ret {| amt_in := Np.sum (Np.select mask amts_in);
          amt_out := Np.sum (Np.select mask amts_out);
          fee_amt := Np.sum (Np.select mask fee_amts);
          fee_bps := Np.sum (Np.select mask fee_amts) / Np.sum (Np.select mask amts_in) * 10000;
          amts_in := amts_in;
          amts_out := amts_out;
          fee_amts := fee_amts |})%pool.

(* ------------------------------------------------------------------ *)
(** ** Pool states and loop states the theorems speak about *)

(** Every per-tier array has [size] entries. *)
Definition aligned (self : Pool) : Prop :=
  length (liquidity_arr self) = size self /\
  length (sqrt_p_arr self) = size self /\
  length (sqrt_gamma_arr self) = size self /\
  length (fee0_growth_arr self) = size self /\
  length (fee1_growth_arr self) = size self.

(** A valid pool state: at least one tier, aligned arrays, positive
    liquidity and sqrt price, sqrt_gamma in (0, 1]. *)
Definition valid_pool (self : Pool) : Prop :=
  aligned self /\
  (0 < size self)%nat /\
  Forall (Qlt 0) (liquidity_arr self) /\
  Forall (Qlt 0) (sqrt_p_arr self) /\
  Forall (fun g => 0 < g /\ g <= 1) (sqrt_gamma_arr self).

(** The states [(mask, amts)] in which control stands at the head of the
    [while True] loop: the initial one, and the one every body execution
    that does not [break] leaves behind. *)
Inductive loop_head (lsg res : Np.ndarray) (amount : Q) (n : nat)
  : list bool -> Np.ndarray -> Prop :=
| lh_init : loop_head lsg res amount n (Np.full n true) (Np.zeros n)
| lh_next mask amts :
    loop_head lsg res amount n mask amts ->
    feasible mask (assign_amts lsg res amount mask amts) = false ->
    loop_head lsg res amount n
              (Np.and_ mask (Np.ge0 (assign_amts lsg res amount mask amts)))
              (assign_amts lsg res amount mask amts).

(** *** The allocation formula, in the specification's words

    [weight], [reserve] and the sums over the active tiers are written per
    tier index, independently of the array code above. *)

Definition weight (self : Pool) (i : nat) : Q :=
  nth i (liquidity_arr self) 0 / nth i (sqrt_gamma_arr self) 0.

Definition gamma_at (self : Pool) (i : nat) : Q :=
  nth i (sqrt_gamma_arr self) 0 * nth i (sqrt_gamma_arr self) 0.

Definition reserve (self : Pool) (sell_token0 : bool) (i : nat) : Q :=
  if sell_token0
  then (nth i (liquidity_arr self) 0 / nth i (sqrt_p_arr self) 0) / gamma_at self i
  else (nth i (liquidity_arr self) 0 * nth i (sqrt_p_arr self) 0) / gamma_at self i.

(** Sum of [f j] over the tiers [j] the mask marks active, [k] being the
    index of the mask's first entry. *)
Fixpoint sigma_from (k : nat) (mask : list bool) (f : nat -> Q) : Q :=
  match mask with
  | [] => 0
  | b :: mask' => (if b then f k else 0) + sigma_from (S k) mask' f
  end.

Definition sigma_active (mask : list bool) (f : nat -> Q) : Q := sigma_from 0 mask f.

Definition spec_allocation (self : Pool) (sell_token0 : bool) (total_input : Q)
           (mask : list bool) (i : nat) : Q :=
  weight self i * (total_input + sigma_active mask (reserve self sell_token0))
  / sigma_active mask (weight self)
  - reserve self sell_token0 i.

(** *** Outcomes and sequences of swaps *)

(** A call failed: it did not return. *)
Definition failed (A : Type) (r : result A) : bool :=
  match r with
  | Ok _ => false
  | _ => true
  end.

(** The fee-growth accumulator of the sold token. *)
Definition sold_fee_growth_arr (sell_token0 : bool) (self : Pool) : Np.ndarray :=
  if sell_token0 then fee0_growth_arr self else fee1_growth_arr self.

(** The fee-growth accumulator of the other token. *)
Definition other_fee_growth_arr (sell_token0 : bool) (self : Pool) : Np.ndarray :=
  if sell_token0 then fee1_growth_arr self else fee0_growth_arr self.

(** [swaps_to p q]: some finite sequence of [swap] calls, each of which
    returned, leads from pool state [p] to pool state [q]. *)
Inductive swaps_to (p : Pool) : Pool -> Prop :=
| swaps_nil : swaps_to p p
| swaps_snoc q q' is_token0 amt_desired r :
    swaps_to p q ->
    swap is_token0 amt_desired q = (Ok r, q') ->
    swaps_to p q'.

(** Entry by entry, [xs] is at most [ys]. *)
Definition pointwise_le (xs ys : Np.ndarray) : Prop :=
  length xs = length ys /\
  forall i, (i < length xs)%nat -> nth i xs 0 <= nth i ys 0.

(** The arguments of the constructor the specification calls invalid. *)
Definition invalid_args (liquidity_arr sqrt_gamma_arr : list Q) (sqrt_p : Q) : Prop :=
  length liquidity_arr <> length sqrt_gamma_arr \/
  Exists (fun l => l <= 0) liquidity_arr \/
  Exists (fun g => g <= 0 \/ 1 < g) sqrt_gamma_arr \/
  sqrt_p <= 0.

(* ------------------------------------------------------------------ *)
(** ** The same program on binary64 numbers

    [F64] embeds the program once more, line by line as above, with every
    number a binary64 float and every operation the IEEE 754 operation numpy
    performs on [float64] (round to nearest even; division by zero gives an
    infinity or NaN, no exception; a comparison with NaN is false).  [xs ** 2]
    is [xs * xs], as numpy computes a power with exponent 2.  The masks and the
    gather and scatter operations are those of [Np]. *)

Module F64.

Definition ndarray := list float.

(** [np.zeros(n)] *)
Definition zeros (n : nat) : ndarray := repeat 0%float n.

Definition add : ndarray -> ndarray -> ndarray := Np.map2 PrimFloat.add.
Definition sub : ndarray -> ndarray -> ndarray := Np.map2 PrimFloat.sub.
Definition mul : ndarray -> ndarray -> ndarray := Np.map2 PrimFloat.mul.
Definition div : ndarray -> ndarray -> ndarray := Np.map2 PrimFloat.div.

(** array (op) scalar *)
Definition mul_s (xs : ndarray) (s : float) : ndarray := map (fun x => x * s)%float xs.
Definition div_s (xs : ndarray) (s : float) : ndarray := map (fun x => x / s)%float xs.

(** [xs ** 2] *)
Definition sqr (xs : ndarray) : ndarray := map (fun x => x * x)%float xs.

(** [xs >= 0]; false at a NaN *)
Definition ge0 (xs : ndarray) : list bool := map (PrimFloat.leb 0) xs.

(** *** [np.sum]

    numpy adds a contiguous [float64] array by pairwise summation: fewer than
    8 entries are added from left to right; up to 128 entries are added into 8
    running sums, which are then combined in a fixed tree, the entries left over
    being added last; a longer array is split in two.  The sum of no entry is
    [0.0].  The running sums start at [0.0] here; numpy releases differ on the
    sign of that zero, which shows at most in the sign of a sum that is zero. *)

Definition sum_seq (acc : float) (xs : ndarray) : float := fold_left PrimFloat.add xs acc.

Definition combine8 (r : ndarray) : float :=
  match r with
  | [r0; r1; r2; r3; r4; r5; r6; r7] =>
      (((r0 + r1) + (r2 + r3)) + ((r4 + r5) + (r6 + r7)))%float
  | _ => 0%float
  end.

Fixpoint sum_unrolled (fuel : nat) (r xs : ndarray) : float :=
  match fuel with
  | O => sum_seq (combine8 r) xs
  | S fuel' =>
      if (8 <=? length xs)%nat
      then sum_unrolled fuel' (add r (firstn 8 xs)) (skipn 8 xs)
      else sum_seq (combine8 r) xs
  end.

Fixpoint pairwise_sum (fuel : nat) (xs : ndarray) : float :=
  let n := length xs in
  if (n <? 8)%nat then sum_seq 0%float xs
  else if (n <=? 128)%nat then sum_unrolled n (firstn 8 xs) (skipn 8 xs)
  else
    match fuel with
    | O => 0%float
    | S fuel' =>
        let n2 := (n / 2 - (n / 2) mod 8)%nat in
        (pairwise_sum fuel' (firstn n2 xs) + pairwise_sum fuel' (skipn n2 xs))%float
    end.

Definition sum (xs : ndarray) : float := (0 + pairwise_sum (length xs) xs)%float.

(** *** Price algebra *)

Definition calc_sqrt_p_from_amt (is_token0 : bool) (sqrt_p0 liquidity amt : float) : float :=
  if is_token0
  then ((liquidity * sqrt_p0) / (liquidity + (amt * sqrt_p0)))%float
  else (sqrt_p0 + (amt / liquidity))%float.

Definition calc_amt_from_sqrt_p (is_token0 : bool) (sqrt_p0 sqrt_p1 liquidity : float) : float :=
  if is_token0
  then (liquidity * (sqrt_p0 - sqrt_p1) / (sqrt_p0 * sqrt_p1))%float
  else (liquidity * (sqrt_p1 - sqrt_p0))%float.

(** *** Pool state *)

Record Pool : Type := mkPool {
  size : nat;
  liquidity_arr : ndarray;
  sqrt_p_arr : ndarray;
  sqrt_gamma_arr : ndarray;
  fee0_growth_arr : ndarray;
  fee1_growth_arr : ndarray
}.

Definition Pool_init (liquidity_arr sqrt_gamma_arr : list float) (sqrt_p : float)
  : result Pool :=
  let size := length liquidity_arr in
  Ok {| size := size;
        sqrt_gamma_arr := sqrt_gamma_arr;
        liquidity_arr := liquidity_arr;
        sqrt_p_arr := repeat sqrt_p (length liquidity_arr);
        fee0_growth_arr := repeat 0%float size;
        fee1_growth_arr := repeat 0%float size |}.

(** [Pool()], the default arguments being [0.9985] and [0.9997] rounded to
    binary64 *)
Definition default_pool : Pool :=
  {| size := 2;
     liquidity_arr := [10000%float; 10000%float];
     sqrt_p_arr := [1%float; 1%float];
     sqrt_gamma_arr := [0x1.ff3b645a1cac1p-1%float; 0x1.ffd8adab9f55ap-1%float];
     fee0_growth_arr := [0%float; 0%float];
     fee1_growth_arr := [0%float; 0%float] |}.

(** [Pool([100, 7], [0.9375, 0.375], 7.0)] *)
Definition pool_three_passes : Pool :=
  {| size := 2;
     liquidity_arr := [100%float; 7%float];
     sqrt_p_arr := [7%float; 7%float];
     sqrt_gamma_arr := [0.9375%float; 0.375%float];
     fee0_growth_arr := [0%float; 0%float];
     fee1_growth_arr := [0%float; 0%float] |}.


(** [Pool([2**60], [0.875], 3.0)] *)
Definition pool_mask_empties : Pool :=
  {| size := 1;
     liquidity_arr := [0x1p+60%float];
     sqrt_p_arr := [3%float];
     sqrt_gamma_arr := [0.875%float];
     fee0_growth_arr := [0%float];
     fee1_growth_arr := [0%float] |}.

(** [Pool.prices] and [Pool.price] *)
Definition prices (self : Pool) : ndarray := sqr (sqrt_p_arr self).

Definition price (self : Pool) : float :=
  (sum (mul (prices self) (liquidity_arr self)) / sum (liquidity_arr self))%float.

(** Every per-tier array has [size] entries. *)
Definition aligned (self : Pool) : Prop :=
  length (liquidity_arr self) = size self /\
  length (sqrt_p_arr self) = size self /\
  length (sqrt_gamma_arr self) = size self /\
  length (fee0_growth_arr self) = size self /\
  length (fee1_growth_arr self) = size self.

(** The numbers of a valid pool state, as float tests: at least one tier,
    liquidity > 0, sqrt price > 0, 0 < sqrt_gamma <= 1. *)
Definition valid_numbers (self : Pool) : bool :=
  (0 <? size self)%nat
  && forallb (PrimFloat.ltb 0) (liquidity_arr self)
  && forallb (PrimFloat.ltb 0) (sqrt_p_arr self)
  && forallb (fun g => PrimFloat.ltb 0 g && PrimFloat.leb g 1) (sqrt_gamma_arr self).

(** *** The tier allocator *)

Definition lsg_of (self : Pool) : ndarray :=
  div (liquidity_arr self) (sqrt_gamma_arr self).

Definition res_of (self : Pool) (is_token0 : bool) : ndarray :=
  let gamma := sqr (sqrt_gamma_arr self) in
  if is_token0
  then div (div (liquidity_arr self) (sqrt_p_arr self)) gamma
  else div (mul (liquidity_arr self) (sqrt_p_arr self)) gamma.

(** line 92 *)
Definition assign_amts (lsg res : ndarray) (amount : float)
           (mask : list bool) (amts : ndarray) : ndarray :=
  Np.put mask amts
    (sub
       (div_s (mul_s (Np.select mask lsg) (amount + sum (Np.select mask res))%float)
              (sum (Np.select mask lsg)))
       (Np.select mask res)).

(** The array line 92 gathers from. *)
Definition unconstrained (lsg res : ndarray) (amount : float) (mask : list bool) : ndarray :=
  sub (div_s (mul_s lsg (amount + sum (Np.select mask res))%float)
             (sum (Np.select mask lsg)))
      res.

(** line 93 *)
Definition feasible (mask : list bool) (amts : ndarray) : bool :=
  Np.all (ge0 (Np.select mask amts)).

(** The [while True] loop, one unit of fuel per execution of the body. *)
Fixpoint calc_loop (fuel : nat) (lsg res : ndarray) (amount : float)
         (mask : list bool) (amts : ndarray) : option (ndarray * list bool) :=
  match fuel with
  | O => None
  | S fuel' =>
      let amts := assign_amts lsg res amount mask amts in
      if feasible mask amts
      then Some (Np.put_scalar (Np.invert mask) amts 0%float, mask)
      else calc_loop fuel' lsg res amount (Np.and_ mask (ge0 amts)) amts
  end.

(** The passes of the loop: for every execution of the body, in order, the
    mask it ran with and the array [amts] as line 92 left it. *)
Fixpoint calc_passes (fuel : nat) (lsg res : ndarray) (amount : float)
         (mask : list bool) (amts : ndarray) : list (list bool * ndarray) :=
  match fuel with
  | O => []
  | S fuel' =>
      let amts := assign_amts lsg res amount mask amts in
      (mask, amts)
      :: (if feasible mask amts
          then []
          else calc_passes fuel' lsg res amount (Np.and_ mask (ge0 amts)) amts)
  end.

Definition _calc_tier_amts_in (self : Pool) (is_token0 : bool) (amount : float)
  : result (ndarray * list bool) :=
  if negb (PrimFloat.leb 0 amount) then AssertionError
  else
    let lsg := lsg_of self in
    let res := res_of self is_token0 in
    let mask := Np.full (size self) true in
    let amts := zeros (size self) in
    match calc_loop (S (size self)) lsg res amount mask amts with
    | Some r => Ok r
    | None => OutOfFuel
    end.

(** The passes of a call of the allocator. *)
Definition passes_of (self : Pool) (is_token0 : bool) (amount : float)
  : list (list bool * ndarray) :=
  calc_passes (S (size self)) (lsg_of self) (res_of self is_token0) amount
              (Np.full (size self) true) (zeros (size self)).

(** *** The swap *)

Record SwapResult : Type := mkSwapResult {
  amt_in : float;
  amt_out : float;
  fee_amt : float;
  fee_bps : float;
  amts_in : ndarray;
  amts_out : ndarray;
  fee_amts : ndarray
}.

Definition M (A : Type) : Type := Pool -> result A * Pool.

Definition ret (A : Type) (a : A) : M A := fun self => (Ok a, self).

Definition bind (A B : Type) (m : M A) (k : A -> M B) : M B :=
  fun self =>
    match m self with
    | (Ok a, self') => k a self'
    | (AssertionError, self') => (AssertionError, self')
    | (OutOfFuel, self') => (OutOfFuel, self')
    end.

Definition assert_ (b : bool) : M unit :=
  fun self => if b then (Ok tt, self) else (AssertionError, self).

Definition get : M Pool := fun self => (Ok self, self).

Definition call (A : Type) (f : Pool -> result A) : M A :=
  fun self => (f self, self).

Definition set_sqrt_p_arr (mask : list bool) (vals : ndarray) : M unit :=
  fun self =>
    (Ok tt,
     {| size := size self;
        liquidity_arr := liquidity_arr self;
        sqrt_p_arr := Np.put mask (sqrt_p_arr self) vals;
        sqrt_gamma_arr := sqrt_gamma_arr self;
        fee0_growth_arr := fee0_growth_arr self;
        fee1_growth_arr := fee1_growth_arr self |}).

Definition add_fee_growth (use_fee0 : bool) (mask : list bool) (vals : ndarray) : M unit :=
  fun self =>
    let grow (arr : ndarray) := Np.put mask arr (add (Np.select mask arr) vals) in
    (Ok tt,
     {| size := size self;
        liquidity_arr := liquidity_arr self;
        sqrt_p_arr := sqrt_p_arr self;
        sqrt_gamma_arr := sqrt_gamma_arr self;
        fee0_growth_arr := if use_fee0 then grow (fee0_growth_arr self) else fee0_growth_arr self;
        fee1_growth_arr := if use_fee0 then fee1_growth_arr self else grow (fee1_growth_arr self) |}).

Definition swap (is_token0 : bool) (amt_desired : float) : M SwapResult :=
  let is_exact_in := PrimFloat.ltb 0 amt_desired in
  bind (assert_ is_exact_in) (fun _ =>
  bind (call (fun self => _calc_tier_amts_in self is_token0 amt_desired)) (fun r =>
  let '(amts_in, mask) := r in
  bind get (fun self =>
  let gamma := sqr (sqrt_gamma_arr self) in
  let amts_in_after_fee :=
    Np.put mask (zeros (size self))
           (mul (Np.select mask amts_in) (Np.select mask gamma)) in
  let sqrt_p_new :=
    Np.put mask (zeros (size self))
           (Np.map3 (calc_sqrt_p_from_amt is_token0)
                    (Np.select mask (sqrt_p_arr self))
                    (Np.select mask (liquidity_arr self))
                    (Np.select mask amts_in_after_fee)) in
  let amts_out :=
    Np.put mask (zeros (size self))
           (Np.map3 (calc_amt_from_sqrt_p (negb is_token0))
                    (Np.select mask (sqrt_p_arr self))
                    (Np.select mask sqrt_p_new)
                    (Np.select mask (liquidity_arr self))) in
  let fee_amts :=
    Np.put mask (zeros (size self))
           (sub (Np.select mask amts_in) (Np.select mask amts_in_after_fee)) in
  bind (set_sqrt_p_arr mask (Np.select mask sqrt_p_new)) (fun _ =>
  bind (add_fee_growth (Bool.eqb is_token0 is_exact_in) mask
                       (div (Np.select mask fee_amts) (Np.select mask (liquidity_arr self))))
       (fun _ =>
  ret {| amt_in := sum (Np.select mask amts_in);
         amt_out := sum (Np.select mask amts_out);
         fee_amt := sum (Np.select mask fee_amts);
         fee_bps := (sum (Np.select mask fee_amts) / sum (Np.select mask amts_in) * 10000)%float;
         amts_in := amts_in;
         amts_out := amts_out;
         fee_amts := fee_amts |}))))).

(** The fee-growth accumulator of the sold token, and of the other token. *)
Definition sold_fee_growth_arr (sell_token0 : bool) (self : Pool) : ndarray :=
  if sell_token0 then fee0_growth_arr self else fee1_growth_arr self.

Definition other_fee_growth_arr (sell_token0 : bool) (self : Pool) : ndarray :=
  if sell_token0 then fee1_growth_arr self else fee0_growth_arr self.

(** [swaps_to p q]: a finite sequence of [swap] calls that returned leads
    from [p] to [q]. *)
Inductive swaps_to (p : Pool) : Pool -> Prop :=
| swaps_nil : swaps_to p p
| swaps_snoc q q' is_token0 amt_desired r :
    swaps_to p q ->
    swap is_token0 amt_desired q = (Ok r, q') ->
    swaps_to p q'.

(** *** The allocation formula, per tier *)

Definition weight (self : Pool) (i : nat) : float :=
  (nth i (liquidity_arr self) 0 / nth i (sqrt_gamma_arr self) 0)%float.

Definition gamma_at (self : Pool) (i : nat) : float :=
  (nth i (sqrt_gamma_arr self) 0 * nth i (sqrt_gamma_arr self) 0)%float.

Definition reserve (self : Pool) (sell_token0 : bool) (i : nat) : float :=
  if sell_token0
  then ((nth i (liquidity_arr self) 0 / nth i (sqrt_p_arr self) 0) / gamma_at self i)%float
  else ((nth i (liquidity_arr self) 0 * nth i (sqrt_p_arr self) 0) / gamma_at self i)%float.

(** [np.sum] of [f j] over the active tiers [j], in the order of the tiers *)
Definition sigma_active (self : Pool) (mask : list bool) (f : nat -> float) : float :=
  sum (Np.select mask (map f (seq 0 (size self)))).

Definition spec_allocation (self : Pool) (sell_token0 : bool) (total_input : float)
           (mask : list bool) (i : nat) : float :=
  (weight self i * (total_input + sigma_active self mask (reserve self sell_token0))
   / sigma_active self mask (weight self)
   - reserve self sell_token0 i)%float.

End F64.

(* ------------------------------------------------------------------ *)
(** ** Lemmas on the array operations *)

Module NpFacts.
Import Np.

Lemma length_map2 (A B C : Type) (f : A -> B -> C) xs ys :
  length (map2 f xs ys) = Nat.min (length xs) (length ys).
Proof.
  revert ys; induction xs as [|x xs IH]; intros [|y ys]; simpl; auto.
Qed.

Lemma length_map3 (A B C D : Type) (f : A -> B -> C -> D) xs ys zs :
  length (map3 f xs ys zs) = Nat.min (length xs) (Nat.min (length ys) (length zs)).
Proof.
  revert ys zs; induction xs as [|x xs IH]; intros [|y ys] [|z zs]; simpl; auto.
Qed.

Lemma length_put (A : Type) mask (xs vals : list A) :
  length (put mask xs vals) = length xs.
Proof.
  revert xs vals; induction mask as [|b m IH]; intros [|x xs] vals; simpl; auto.
  destruct b; [destruct vals|]; simpl; rewrite IH; reflexivity.
Qed.

Lemma length_put_scalar (A : Type) mask (xs : list A) v :
  length (put_scalar mask xs v) = length xs.
Proof.
  revert xs; induction mask as [|b m IH]; intros [|x xs]; simpl; auto.
Qed.

Lemma length_where (A : Type) mask (xs ys : list A) :
  length mask = length xs -> length mask = length ys ->
  length (where_ mask xs ys) = length mask.
Proof.
  revert xs ys; induction mask as [|b m IH]; intros [|x xs] [|y ys]; simpl;
    try discriminate; trivial.
  intros Hx Hy. f_equal. apply IH; lia.
Qed.

Lemma length_zeros n : length (zeros n) = n.
Proof. apply repeat_length. Qed.

(** Side conditions on lengths. *)
Ltac len :=
  repeat first [ rewrite length_map2 | rewrite length_map3 | rewrite length_map
               | rewrite length_put | rewrite length_zeros ];
  first [ lia | rewrite length_where by len; len ].

Lemma length_full (A : Type) n (v : A) : length (full n v) = n.
Proof. apply repeat_length. Qed.

Lemma length_invert mask : length (invert mask) = length mask.
Proof. apply length_map. Qed.

Lemma length_ge0 xs : length (ge0 xs) = length xs.
Proof. apply length_map. Qed.

(** *** Gathering commutes with the elementwise operations *)

Lemma select_map (A B : Type) (f : A -> B) mask xs :
  select mask (map f xs) = map f (select mask xs).
Proof.
  revert xs; induction mask as [|b m IH]; intros [|x xs]; simpl; auto.
  destruct b; simpl; rewrite IH; reflexivity.
Qed.

Lemma select_map2 (A B C : Type) (f : A -> B -> C) mask xs ys :
  length mask = length xs -> length mask = length ys ->
  select mask (map2 f xs ys) = map2 f (select mask xs) (select mask ys).
Proof.
  revert xs ys; induction mask as [|b m IH]; intros [|x xs] [|y ys]; simpl;
    try discriminate; auto.
  intros Hx Hy. destruct b; simpl; rewrite IH by lia; reflexivity.
Qed.

Lemma select_map3 (A B C D : Type) (f : A -> B -> C -> D) mask xs ys zs :
  length mask = length xs -> length mask = length ys -> length mask = length zs ->
  select mask (map3 f xs ys zs)
  = map3 f (select mask xs) (select mask ys) (select mask zs).
Proof.
  revert xs ys zs; induction mask as [|b m IH]; intros [|x xs] [|y ys] [|z zs]; simpl;
    try discriminate; auto.
  intros Hx Hy Hz. destruct b; simpl; rewrite IH by lia; reflexivity.
Qed.

(** *** A masked assignment, position by position *)

Lemma put_select (A : Type) mask (xs src : list A) :
  length mask = length xs -> length mask = length src ->
  put mask xs (select mask src) = where_ mask src xs.
Proof.
  revert xs src; induction mask as [|b m IH]; intros [|x xs] [|s src]; simpl;
    try discriminate; auto.
  intros Hx Hs. destruct b; simpl; rewrite IH by lia; reflexivity.
Qed.

Lemma put_scalar_invert (A : Type) mask (xs : list A) v :
  length mask = length xs ->
  put_scalar (invert mask) xs v = where_ mask xs (repeat v (length mask)).
Proof.
  revert xs; induction mask as [|b m IH]; intros [|x xs]; simpl;
    try discriminate; auto.
  intros Hx. destruct b; simpl; rewrite IH by lia; reflexivity.
Qed.

Lemma select_where (A : Type) mask (xs ys : list A) :
  length mask = length xs -> length mask = length ys ->
  select mask (where_ mask xs ys) = select mask xs.
Proof.
  revert xs ys; induction mask as [|b m IH]; intros [|x xs] [|y ys]; simpl;
    try discriminate; auto.
  intros Hx Hy. destruct b; simpl; rewrite IH by lia; reflexivity.
Qed.

Lemma where_where (A : Type) mask (xs ys zs : list A) :
  length mask = length xs -> length mask = length ys -> length mask = length zs ->
  where_ mask (where_ mask xs zs) ys = where_ mask xs ys.
Proof.
  revert xs ys zs; induction mask as [|b m IH]; intros [|x xs] [|y ys] [|z zs]; simpl;
    try discriminate; auto.
  intros Hx Hy Hz. destruct b; simpl; rewrite IH by lia; reflexivity.
Qed.

Lemma nth_where (A : Type) mask (xs ys : list A) i d :
  length mask = length xs -> length mask = length ys ->
  nth i (where_ mask xs ys) d
  = if nth i mask false then nth i xs d else nth i ys d.
Proof.
  revert xs ys i; induction mask as [|b m IH]; intros [|x xs] [|y ys] i; simpl;
    try discriminate.
  - destruct i; reflexivity.
  - intros Hx Hy. destruct i as [|i]; [reflexivity|]. apply IH; lia.
Qed.

Lemma nth_map2 (A B C : Type) (f : A -> B -> C) xs ys i da db dc :
  (i < length xs)%nat -> (i < length ys)%nat ->
  nth i (map2 f xs ys) dc = f (nth i xs da) (nth i ys db).
Proof.
  revert ys i; induction xs as [|x xs IH]; intros [|y ys] i; simpl; try lia.
  intros Hx Hy. destruct i as [|i]; [reflexivity|]. apply IH; lia.
Qed.

Lemma nth_map3 (A B C D : Type) (f : A -> B -> C -> D) xs ys zs i da db dc dd :
  (i < length xs)%nat -> (i < length ys)%nat -> (i < length zs)%nat ->
  nth i (map3 f xs ys zs) dd = f (nth i xs da) (nth i ys db) (nth i zs dc).
Proof.
  revert ys zs i; induction xs as [|x xs IH]; intros [|y ys] [|z zs] i; simpl; try lia.
  intros Hx Hy Hz. destruct i as [|i]; [reflexivity|]. apply IH; lia.
Qed.

Lemma nth_map_in (A B : Type) (f : A -> B) xs i da db :
  (i < length xs)%nat -> nth i (map f xs) db = f (nth i xs da).
Proof.
  intros Hi. rewrite (nth_indep _ db (f da)) by (rewrite length_map; exact Hi).
  apply map_nth.
Qed.

Lemma nth_repeat_in (A : Type) (v d : A) n i : (i < n)%nat -> nth i (repeat v n) d = v.
Proof.
  revert i; induction n as [|n IH]; intros i Hi; [lia|].
  destruct i as [|i]; simpl; [reflexivity|]. apply IH; lia.
Qed.

(** *** Counting the active tiers *)

Lemma count_full n : count (full n true) = n.
Proof. unfold count, full. induction n; simpl; auto. Qed.

Lemma length_select (A : Type) mask (xs : list A) :
  length mask = length xs -> length (select mask xs) = count mask.
Proof.
  unfold count. revert xs; induction mask as [|b m IH]; intros [|x xs]; simpl;
    try discriminate; auto.
  intros Hx. destruct b; simpl; rewrite IH by lia; reflexivity.
Qed.

Lemma length_select_le (A : Type) mask (xs : list A) :
  (length (select mask xs) <= count mask)%nat.
Proof.
  unfold count. revert xs; induction mask as [|b m IH]; intros [|x xs]; simpl;
    try lia.
  specialize (IH xs). destruct b; simpl; lia.
Qed.

Lemma count_and_map (A : Type) (P : A -> bool) mask xs :
  count (and_ mask (map P xs)) = length (filter P (select mask xs)).
Proof.
  unfold count, and_. revert xs; induction mask as [|b m IH]; intros [|x xs]; simpl; auto.
  destruct b; simpl; [destruct (P x); simpl|]; rewrite IH; reflexivity.
Qed.

Lemma all_ge0 xs : all (ge0 xs) = forallb (Qle_bool 0) xs.
Proof.
  unfold all, ge0. induction xs as [|x xs IH]; simpl; auto. rewrite IH; reflexivity.
Qed.

Lemma filter_length_lt (A : Type) (P : A -> bool) l :
  forallb P l = false -> (length (filter P l) < length l)%nat.
Proof.
  induction l as [|x l IH]; simpl; [discriminate|].
  pose proof (filter_length_le P l) as Hle.
  destruct (P x); simpl; intros H; [apply IH in H|]; lia.
Qed.

(** *** Sums *)

Lemma sum_sub xs ys :
  length xs = length ys -> sum (sub xs ys) == sum xs - sum ys.
Proof.
  unfold sub. revert ys; induction xs as [|x xs IH]; intros [|y ys]; simpl;
    try discriminate; [reflexivity|].
  intros H. rewrite IH by lia. ring.
Qed.

Lemma sum_mul_s xs s : sum (mul_s xs s) == sum xs * s.
Proof.
  unfold mul_s. induction xs as [|x xs IH]; simpl; [ring|]. rewrite IH. ring.
Qed.

Lemma sum_div_s xs s : sum (div_s xs s) == sum xs / s.
Proof.
  unfold div_s, Qdiv. induction xs as [|x xs IH]; simpl; [ring|]. rewrite IH. ring.
Qed.

Lemma sum_pos xs : xs <> [] -> Forall (Qlt 0) xs -> 0 < sum xs.
Proof.
  intros Hne Hall. induction Hall as [|x xs Hx Hxs IH]; [congruence|].
  simpl. destruct xs as [|y ys]; simpl in *; [lra|].
  assert (0 < y + sum ys) by (apply IH; discriminate). lra.
Qed.

Lemma sum_neg xs : xs <> [] -> Forall (fun x => x < 0) xs -> sum xs < 0.
Proof.
  intros Hne Hall. induction Hall as [|x xs Hx Hxs IH]; [congruence|].
  simpl. destruct xs as [|y ys]; simpl in *; [lra|].
  assert (y + sum ys < 0) by (apply IH; discriminate). lra.
Qed.

Lemma Forall_select (A : Type) (P : A -> Prop) mask xs :
  Forall P xs -> Forall P (select mask xs).
Proof.
  intros H. revert mask; induction H as [|x xs Hx Hxs IH]; intros [|b m]; simpl; auto.
  destruct b; auto.
Qed.

End NpFacts.

(* ------------------------------------------------------------------ *)
(** ** The allocator's loop *)

Section Loop.
Import Np NpFacts.

Variables (lsg res : ndarray) (amount : Q) (n : nat).

Lemma loop_head_lengths mask amts :
  loop_head lsg res amount n mask amts -> length mask = n /\ length amts = n.
Proof.
  induction 1 as [|m a Hh [IHm IHa] Hf].
  - split; [apply length_full | apply length_zeros].
  - unfold and_, assign_amts.
    rewrite length_map2, length_ge0, !length_put. lia.
Qed.

(** A body execution that does not break drops at least one tier. *)
Lemma mask_shrinks mask amts :
  feasible mask amts = false ->
  (count (and_ mask (ge0 amts)) < count mask)%nat.
Proof.
  unfold feasible. rewrite all_ge0. intros Hf.
  apply filter_length_lt in Hf.
  unfold ge0. rewrite count_and_map.
  pose proof (length_select_le mask amts). lia.
Qed.

(** With more fuel than active tiers the loop reaches its [break],
    whatever the arrays hold. *)
Lemma calc_loop_total fuel :
  forall mask amts,
    (count mask < fuel)%nat ->
    exists r, calc_loop fuel lsg res amount mask amts = Some r.
Proof.
  induction fuel as [|fuel IH]; intros mask amts Hc; [lia|].
  simpl. destruct (feasible mask (assign_amts lsg res amount mask amts)) eqn:Hf.
  - eexists; reflexivity.
  - apply IH. apply mask_shrinks in Hf. lia.
Qed.

(** What the loop returns comes from a loop-head state whose body breaks. *)
Lemma calc_loop_exit fuel :
  forall mask amts out mf,
    loop_head lsg res amount n mask amts ->
    calc_loop fuel lsg res amount mask amts = Some (out, mf) ->
    exists af,
      loop_head lsg res amount n mf af /\
      feasible mf (assign_amts lsg res amount mf af) = true /\
      out = put_scalar (invert mf) (assign_amts lsg res amount mf af) 0.
Proof.
  induction fuel as [|fuel IH]; intros mask amts out mf Hh Hrun; [discriminate|].
  simpl in Hrun.
  destruct (feasible mask (assign_amts lsg res amount mask amts)) eqn:Hf.
  - inversion Hrun; subst. exists amts. auto.
  - eapply IH; [|exact Hrun]. apply lh_next; assumption.
Qed.

(** More fuel does not change a result. *)
Lemma calc_loop_more_fuel fuel :
  forall fuel' mask amts r,
    (fuel <= fuel')%nat ->
    calc_loop fuel lsg res amount mask amts = Some r ->
    calc_loop fuel' lsg res amount mask amts = Some r.
Proof.
  induction fuel as [|fuel IH]; intros fuel' mask amts r Hle Hrun; [discriminate|].
  destruct fuel' as [|fuel']; [lia|]. simpl in *.
  destruct (feasible mask (assign_amts lsg res amount mask amts)); [assumption|].
  apply IH; [lia | assumption].
Qed.

Hypothesis Hlsg : length lsg = n.
Hypothesis Hres : length res = n.

Lemma assign_amts_where mask amts :
  length mask = n -> length amts = n ->
  assign_amts lsg res amount mask amts = where_ mask (unconstrained lsg res amount mask) amts.
Proof.
  intros Hm Ha. unfold assign_amts, unconstrained, sub, div_s, mul_s.
  rewrite <- !select_map, <- select_map2, put_select; try reflexivity;
    rewrite ?length_map2, ?length_map; lia.
Qed.

Lemma length_unconstrained mask : length (unconstrained lsg res amount mask) = n.
Proof.
  unfold unconstrained, sub, div_s, mul_s. rewrite length_map2, !length_map. lia.
Qed.

Lemma nth_unconstrained mask i :
  (i < n)%nat ->
  nth i (unconstrained lsg res amount mask) 0
  = nth i lsg 0 * (amount + sum (select mask res)) / sum (select mask lsg) - nth i res 0.
Proof.
  intros Hi. unfold unconstrained, sub, div_s, mul_s.
  rewrite (nth_map2 _ _ _ 0 0) by (rewrite ?length_map; lia).
  rewrite (nth_map_in _ _ 0) by (rewrite ?length_map; lia).
  rewrite (nth_map_in _ _ 0) by lia. reflexivity.
Qed.

Lemma select_assign_amts mask amts :
  length mask = n -> length amts = n ->
  select mask (assign_amts lsg res amount mask amts)
  = sub (div_s (mul_s (select mask lsg) (amount + sum (select mask res)))
               (sum (select mask lsg)))
        (select mask res).
Proof.
  intros Hm Ha. rewrite assign_amts_where by assumption.
  rewrite select_where by (rewrite ?length_unconstrained; lia).
  unfold unconstrained, sub, div_s, mul_s.
  rewrite select_map2, !select_map; try reflexivity; rewrite ?length_map; lia.
Qed.

Hypothesis Hpos : Forall (Qlt 0) lsg.

Lemma sum_weights_pos mask :
  length mask = n -> (0 < count mask)%nat -> 0 < sum (select mask lsg).
Proof.
  intros Hm Hc. apply sum_pos; [|apply Forall_select; assumption].
  intros Hnil. apply (f_equal (@length Q)) in Hnil.
  rewrite length_select in Hnil by lia. simpl in Hnil. lia.
Qed.

(** The active allocations add up to the input. *)
Lemma sum_assign_amts mask amts :
  length mask = n -> length amts = n -> (0 < count mask)%nat ->
  sum (select mask (assign_amts lsg res amount mask amts)) == amount.
Proof.
  intros Hm Ha Hc. rewrite select_assign_amts by assumption.
  rewrite sum_sub by (unfold div_s, mul_s; rewrite !length_map, !length_select; lia).
  rewrite sum_div_s, sum_mul_s.
  pose proof (sum_weights_pos mask Hm Hc) as HW.
  field. lra.
Qed.

Hypothesis Hamt : 0 <= amount.
Hypothesis Hn : (0 < n)%nat.

(** Some active tier has a non-negative allocation, so the mask never
    becomes empty. *)
Lemma loop_head_nonempty mask amts :
  loop_head lsg res amount n mask amts -> (0 < count mask)%nat.
Proof.
  induction 1 as [|m a Hh IH Hf].
  - rewrite count_full. exact Hn.
  - destruct (loop_head_lengths Hh) as [Hm Ha].
    pose proof (sum_assign_amts m a Hm Ha IH) as Hsum.
    set (a' := assign_amts lsg res amount m a) in *.
    unfold ge0. rewrite count_and_map.
    destruct (filter (Qle_bool 0) (select m a')) eqn:Hfil; [|simpl; lia].
    exfalso.
    assert (Hneg : Forall (fun x => x < 0) (select m a')).
    { apply Forall_forall. intros x Hx.
      destruct (Qlt_le_dec x 0) as [Hlt|Hge]; [assumption|].
      assert (Hin : In x (filter (Qle_bool 0) (select m a'))).
      { apply filter_In. split; [assumption | apply Qle_bool_iff; assumption]. }
      rewrite Hfil in Hin. destruct Hin. }
    assert (Hne : select m a' <> []).
    { intros Hnil. apply (f_equal (@length Q)) in Hnil.
      rewrite length_select in Hnil
        by (unfold a', assign_amts; rewrite length_put; lia).
      simpl in Hnil. lia. }
    pose proof (sum_neg Hne Hneg). lra.
Qed.

(** One unit of fuel per tier is enough. *)
Lemma calc_loop_bounded fuel :
  forall mask amts,
    loop_head lsg res amount n mask amts ->
    (count mask <= fuel)%nat ->
    exists r, calc_loop fuel lsg res amount mask amts = Some r.
Proof.
  induction fuel as [|fuel IH]; intros mask amts Hh Hc.
  - pose proof (loop_head_nonempty Hh). lia.
  - simpl. destruct (feasible mask (assign_amts lsg res amount mask amts)) eqn:Hf.
    + eexists; reflexivity.
    + apply IH; [apply lh_next; assumption|].
      apply mask_shrinks in Hf. lia.
Qed.

End Loop.

(* ------------------------------------------------------------------ *)
(** ** The allocator on a pool *)

Section Allocator.
Import Np NpFacts.

Lemma length_lsg_of self : aligned self -> length (lsg_of self) = size self.
Proof.
  intros (HL & HP & HG & _). unfold lsg_of, div. rewrite length_map2. lia.
Qed.

Lemma length_res_of self is_token0 :
  aligned self -> length (res_of self is_token0) = size self.
Proof.
  intros (HL & HP & HG & _). unfold res_of, div, mul, sqr.
  destruct is_token0; rewrite !length_map2, length_map; lia.
Qed.

Lemma nth_lsg_of self i :
  aligned self -> (i < size self)%nat -> nth i (lsg_of self) 0 = weight self i.
Proof.
  intros (HL & HP & HG & _) Hi. unfold lsg_of, div, weight.
  apply nth_map2; lia.
Qed.

Lemma nth_res_of self is_token0 i :
  aligned self -> (i < size self)%nat ->
  nth i (res_of self is_token0) 0 == reserve self is_token0 i.
Proof.
  intros (HL & HP & HG & _) Hi. unfold res_of, div, mul, sqr, reserve, gamma_at.
  destruct is_token0;
    rewrite (nth_map2 _ _ _ 0 0) by (rewrite ?length_map2, ?length_map; lia);
    rewrite (nth_map2 _ _ _ 0 0) by lia;
    rewrite (nth_map_in _ _ 0) by lia;
    simpl; reflexivity.
Qed.

Lemma map2_Forall (P Q' R : Q -> Prop) (f : Q -> Q -> Q) xs ys :
  (forall x y, P x -> Q' y -> R (f x y)) ->
  Forall P xs -> Forall Q' ys -> Forall R (map2 f xs ys).
Proof.
  intros Hf Hx. revert ys. induction Hx as [|x xs Hx Hxs IH]; intros ys Hy; simpl; auto.
  destruct Hy as [|y ys Hy Hys]; auto.
Qed.

Lemma lsg_of_pos self : valid_pool self -> Forall (Qlt 0) (lsg_of self).
Proof.
  intros (_ & _ & HL & _ & HG). unfold lsg_of, div.
  apply map2_Forall with (P := Qlt 0) (Q' := fun g => 0 < g /\ g <= 1); auto.
  intros x y Hx [Hy _]. apply Qlt_shift_div_l; lra.
Qed.

(** Sums over a gathered array are sums over the active indices. *)
Lemma sigma_from_ext k mask f g :
  (forall j, (k <= j < k + length mask)%nat -> f j == g j) ->
  sigma_from k mask f == sigma_from k mask g.
Proof.
  revert k; induction mask as [|b m IH]; intros k Hfg; simpl; [reflexivity|].
  rewrite (IH (S k)) by (intros j Hj; apply Hfg; simpl; lia).
  destruct b; [rewrite (Hfg k) by (simpl; lia)|]; reflexivity.
Qed.

Lemma sum_select_sigma_from mask :
  forall xs k,
    length mask = length xs ->
    sum (select mask xs) == sigma_from k mask (fun j => nth (j - k) xs 0).
Proof.
  induction mask as [|b m IH]; intros [|x xs] k Hlen; simpl in Hlen;
    try discriminate; [reflexivity|].
  set (f := fun j => nth (j - k) (x :: xs) 0).
  assert (Htl : sum (select m xs) == sigma_from (S k) m f).
  { rewrite (IH xs (S k)) by lia. apply sigma_from_ext. intros j Hj.
    unfold f. replace (j - k)%nat with (S (j - S k)) by lia. reflexivity. }
  assert (Hhd : f k = x) by (unfold f; rewrite Nat.sub_diag; reflexivity).
  cbn [select sigma_from]. rewrite Hhd.
  destruct b; cbn [sum fold_right]; fold (sum (select m xs)); rewrite Htl; ring.
Qed.

Lemma sum_select_sigma mask xs f :
  length mask = length xs ->
  (forall j, (j < length mask)%nat -> nth j xs 0 == f j) ->
  sum (select mask xs) == sigma_active mask f.
Proof.
  intros Hlen Hf. rewrite (sum_select_sigma_from mask xs 0 Hlen).
  unfold sigma_active. apply sigma_from_ext. intros j Hj.
  rewrite Nat.sub_0_r. apply Hf. lia.
Qed.

Lemma exists_nonneg xs :
  xs <> [] -> 0 <= sum xs -> exists x, In x xs /\ 0 <= x.
Proof.
  induction xs as [|x xs IH]; intros Hne Hsum; [congruence|].
  destruct (Qlt_le_dec x 0) as [Hlt|Hge].
  - simpl in Hsum. destruct IH as (y & Hin & Hy).
    + intros Hnil. subst xs. simpl in Hsum. lra.
    + fold (sum xs) in Hsum. lra.
    + exists y. split; [right; assumption | assumption].
  - exists x. split; [left; reflexivity | assumption].
Qed.

Lemma In_select mask :
  forall xs (x : Q),
    In x (select mask xs) ->
    exists i, (i < length mask)%nat /\ nth i mask false = true /\ nth i xs 0 = x.
Proof.
  induction mask as [|b m IH]; intros [|y ys] x Hin; simpl in Hin; try contradiction.
  destruct b.
  - destruct Hin as [Heq|Hin].
    + exists 0%nat. simpl. repeat split; [lia | assumption].
    + destruct (IH ys x Hin) as (i & Hi & Hm & Hx).
      exists (S i). simpl. repeat split; [lia | assumption | assumption].
  - destruct (IH ys x Hin) as (i & Hi & Hm & Hx).
    exists (S i). simpl. repeat split; [lia | assumption | assumption].
Qed.

(** The returned array: non-negative, zero outside the mask. *)
Lemma exit_nonneg mask :
  forall amts,
    length mask = length amts ->
    feasible mask amts = true ->
    Forall (Qle 0) (put_scalar (invert mask) amts 0) /\
    (forall i, nth i mask false = false ->
               nth i (put_scalar (invert mask) amts 0) 0 = 0) /\
    select mask (put_scalar (invert mask) amts 0) = select mask amts.
Proof.
  unfold feasible. intros amts. rewrite all_ge0. revert amts.
  induction mask as [|b m IH]; intros [|x xs] Hlen Hf; simpl in *; try discriminate.
  - repeat split; [constructor | intros [|i] _; reflexivity].
  - destruct b; simpl in *.
    + apply andb_true_iff in Hf. destruct Hf as [Hx Hf].
      apply Qle_bool_iff in Hx.
      destruct (IH xs) as (H1 & H2 & H3); [lia | assumption |].
      repeat split.
      * constructor; assumption.
      * intros [|i] Hi; [discriminate | apply H2; assumption].
      * rewrite H3; reflexivity.
    + destruct (IH xs) as (H1 & H2 & H3); [lia | assumption |].
      repeat split.
      * constructor; [lra | assumption].
      * intros [|i] Hi; [reflexivity | apply H2; assumption].
      * assumption.
Qed.

(** The allocator returns, and what it returns is the exit of the loop. *)
Lemma calc_tier_amts_in_exit self is_token0 amount :
  0 <= amount ->
  exists amts mask af,
    _calc_tier_amts_in self is_token0 amount = Ok (amts, mask) /\
    loop_head (lsg_of self) (res_of self is_token0) amount (size self) mask af /\
    feasible mask (assign_amts (lsg_of self) (res_of self is_token0) amount mask af) = true /\
    amts = put_scalar (invert mask)
                      (assign_amts (lsg_of self) (res_of self is_token0) amount mask af) 0.
Proof.
  intros Hamt. unfold _calc_tier_amts_in.
  apply Qle_bool_iff in Hamt. rewrite Hamt. simpl negb. cbv iota.
  destruct (@calc_loop_total (lsg_of self) (res_of self is_token0) amount
              (S (size self)) (full (size self) true) (zeros (size self)))
    as [[out mf] Hrun].
  { rewrite count_full. lia. }
  cbv zeta. rewrite Hrun.
  destruct (calc_loop_exit (n := size self) _ (lh_init _ _ _ _) Hrun) as (af & Hh & Hf & Hout).
  exists out, mf, af. auto.
Qed.

End Allocator.

(* ------------------------------------------------------------------ *)
(** ** The swap, field by field *)

Section Swap.
Import Np NpFacts.

Lemma calc_tier_amts_in_lengths self is_token0 amount amts mask :
  _calc_tier_amts_in self is_token0 amount = Ok (amts, mask) ->
  length amts = size self /\ length mask = size self.
Proof.
  intros Hcalc.
  assert (Hamt : 0 <= amount).
  { unfold _calc_tier_amts_in in Hcalc.
    destruct (Qle_bool 0 amount) eqn:Hb; [apply Qle_bool_iff; assumption | discriminate]. }
  destruct (calc_tier_amts_in_exit self is_token0 Hamt) as (a & m & af & Heq & Hh & _ & Hout).
  rewrite Heq in Hcalc. inversion Hcalc; subst.
  destruct (loop_head_lengths Hh) as [Hm Ha].
  rewrite length_put_scalar. unfold assign_amts. rewrite length_put. auto.
Qed.

Lemma swap_inv is_token0 amt_desired self r self' :
  aligned self ->
  swap is_token0 amt_desired self = (Ok r, self') ->
  0 < amt_desired /\
  exists amts mask,
    _calc_tier_amts_in self is_token0 amt_desired = Ok (amts, mask) /\
    size self' = size self /\
    liquidity_arr self' = liquidity_arr self /\
    sqrt_gamma_arr self' = sqrt_gamma_arr self /\
    sqrt_p_arr self'
    = where_ mask
             (map3 (calc_sqrt_p_from_amt is_token0) (sqrt_p_arr self) (liquidity_arr self)
                   (mul amts (sqr (sqrt_gamma_arr self))))
             (sqrt_p_arr self) /\
    fee0_growth_arr self'
    = (if is_token0
       then where_ mask (add (fee0_growth_arr self) (div (sub amts (mul amts (sqr (sqrt_gamma_arr self)))) (liquidity_arr self)))
                   (fee0_growth_arr self)
       else fee0_growth_arr self) /\
    fee1_growth_arr self'
    = (if is_token0
       then fee1_growth_arr self
       else where_ mask (add (fee1_growth_arr self) (div (sub amts (mul amts (sqr (sqrt_gamma_arr self)))) (liquidity_arr self)))
                   (fee1_growth_arr self)) /\
    amts_in r = amts /\
    fee_amts r
    = where_ mask (sub amts (mul amts (sqr (sqrt_gamma_arr self)))) (zeros (size self)) /\
    amt_in r = sum (select mask amts).
Proof.
  intros Hal Hswap. pose proof Hal as (HL & HP & HG & HF0 & HF1).
  unfold swap, bind, assert_, call, get, ret in Hswap.
  destruct (Qle_bool amt_desired 0) eqn:Hle; simpl in Hswap; [discriminate|].
  assert (Hpos : 0 < amt_desired).
  { destruct (Qlt_le_dec 0 amt_desired) as [H|H]; [assumption|].
    apply Qle_bool_iff in H. congruence. }
  split; [assumption|].
  destruct (_calc_tier_amts_in self is_token0 amt_desired) as [[amts mask]| |] eqn:Hcalc;
    try discriminate.
  destruct (calc_tier_amts_in_lengths _ _ _ Hcalc) as [Ha Hm].
  exists amts, mask. split; [reflexivity|].
  unfold set_sqrt_p_arr, add_fee_growth in Hswap. simpl in Hswap.
  assert (Hg : length (sqr (sqrt_gamma_arr self)) = size self)
    by (unfold sqr; rewrite length_map; exact HG).
  assert (Hz : length (zeros (size self)) = size self) by apply length_zeros.
  unfold mul, sub, add, div in *.
  rewrite <- (select_map2 Qmult mask amts (sqr (sqrt_gamma_arr self))) in Hswap by lia.
  rewrite (put_select mask (zeros (size self)) (map2 Qmult amts (sqr (sqrt_gamma_arr self))))
    in Hswap by len.
  rewrite (select_where mask (map2 Qmult amts (sqr (sqrt_gamma_arr self))) (zeros (size self)))
    in Hswap by len.
  rewrite <- (select_map2 Qminus mask amts) in Hswap by len.
  rewrite <- (select_map3 (calc_sqrt_p_from_amt is_token0) mask) in Hswap by len.
  rewrite !put_select in Hswap by len.
  rewrite !select_where in Hswap by len.
  rewrite <- !(select_map2 Qdiv mask) in Hswap by len.
  rewrite <- !(select_map2 Qplus mask) in Hswap by len.
  rewrite !put_select in Hswap by len.
  rewrite ?where_where in Hswap by len.
  inversion Hswap; subst; clear Hswap. simpl.
  destruct is_token0; simpl; repeat split; reflexivity.
Qed.

End Swap.

(* ------------------------------------------------------------------ *)
(** ** Facts the swap theorems share *)

Section SwapFacts.
Import Np NpFacts.

(** What the allocator hands to [swap]. *)
Lemma calc_tier_amts_in_result self is_token0 amount amts mask :
  _calc_tier_amts_in self is_token0 amount = Ok (amts, mask) ->
  0 <= amount /\
  length amts = size self /\ length mask = size self /\
  Forall (Qle 0) amts /\
  (forall i, nth i mask false = false -> nth i amts 0 = 0).
Proof.
  intros Hcalc.
  assert (Hamt : 0 <= amount).
  { unfold _calc_tier_amts_in in Hcalc.
    destruct (Qle_bool 0 amount) eqn:Hb; [apply Qle_bool_iff; assumption | discriminate]. }
  destruct (calc_tier_amts_in_lengths _ _ _ Hcalc) as [Ha Hm].
  destruct (calc_tier_amts_in_exit self is_token0 Hamt)
    as (a & m & af & Heq & Hh & Hf & Hout).
  rewrite Heq in Hcalc. inversion Hcalc; subst a m; clear Hcalc.
  destruct (loop_head_lengths Hh) as [Hm' Haf].
  destruct (@exit_nonneg mask
              (assign_amts (lsg_of self) (res_of self is_token0) amount mask af))
    as (Hnn & Hz & _); [unfold assign_amts; rewrite length_put; lia | assumption |].
  subst amts. auto.
Qed.

(** On a valid pool the returned active amounts add up to the input and
    the returned mask is not empty. *)
Lemma calc_tier_amts_in_sum self is_token0 amount amts mask :
  valid_pool self ->
  _calc_tier_amts_in self is_token0 amount = Ok (amts, mask) ->
  sum (select mask amts) == amount /\ (0 < count mask)%nat.
Proof.
  intros Hv Hcalc. pose proof Hv as (Hal & Hn & _).
  destruct (calc_tier_amts_in_result _ _ _ Hcalc) as (Hamt & _).
  destruct (calc_tier_amts_in_exit self is_token0 Hamt)
    as (a & m & af & Heq & Hh & Hf & Hout).
  rewrite Heq in Hcalc. inversion Hcalc; subst a m; clear Hcalc.
  destruct (loop_head_lengths Hh) as [Hm Haf].
  pose proof (@loop_head_nonempty _ _ _ _ (length_lsg_of Hal) (length_res_of is_token0 Hal)
                (lsg_of_pos Hv) Hamt Hn _ _ Hh) as Hc.
  split; [|assumption].
  destruct (@exit_nonneg mask
              (assign_amts (lsg_of self) (res_of self is_token0) amount mask af))
    as (_ & _ & Hsel); [unfold assign_amts; rewrite length_put; lia | assumption |].
  subst amts. rewrite Hsel.
  apply (@sum_assign_amts _ _ amount _ (length_lsg_of Hal) (length_res_of is_token0 Hal)
           (lsg_of_pos Hv)); assumption.
Qed.

Lemma swap_rejects is_token0 amt_desired self :
  amt_desired <= 0 -> swap is_token0 amt_desired self = (AssertionError, self).
Proof.
  intros Hle. apply Qle_bool_iff in Hle.
  unfold swap, bind, assert_. rewrite Hle. reflexivity.
Qed.

Lemma swap_returns is_token0 amt_desired self :
  0 < amt_desired ->
  exists r self', swap is_token0 amt_desired self = (Ok r, self').
Proof.
  intros Hpos.
  assert (Hle : Qle_bool amt_desired 0 = false).
  { destruct (Qle_bool amt_desired 0) eqn:Hb; [|reflexivity].
    apply Qle_bool_iff in Hb. lra. }
  destruct (@calc_tier_amts_in_exit self is_token0 amt_desired)
    as (amts & mask & af & Hcalc & _); [lra|].
  unfold swap, bind, assert_, call, get, ret. rewrite Hle. cbn [negb].
  rewrite Hcalc. cbv beta iota zeta. eexists. eexists. reflexivity.
Qed.

Lemma swap_fee_bps is_token0 amt_desired self r self' :
  swap is_token0 amt_desired self = (Ok r, self') ->
  fee_bps r = fee_amt r / amt_in r * 10000.
Proof.
  unfold swap, bind, assert_, call, get, ret.
  destruct (negb (Qle_bool amt_desired 0)); [|discriminate].
  destruct (_calc_tier_amts_in self is_token0 amt_desired) as [[amts mask]| |];
    try discriminate.
  cbv beta iota zeta. intros H. inversion H; subst. reflexivity.
Qed.

(** *** Arithmetic of one tier *)

Lemma sqr_bounds g : 0 < g -> g <= 1 -> 0 < g ^ 2 /\ g ^ 2 <= 1.
Proof. intros H0 H1. simpl. split; nra. Qed.

Lemma price_after_positive is_token0 s l x :
  0 < s -> 0 < l -> 0 <= x -> 0 < calc_sqrt_p_from_amt is_token0 s l x.
Proof.
  intros Hs Hl Hx. unfold calc_sqrt_p_from_amt. destruct is_token0.
  - apply Qlt_shift_div_l; nra.
  - assert (0 <= x / l) by (apply Qle_shift_div_l; lra). lra.
Qed.

Lemma price_moves s l x :
  0 < s -> 0 < l -> 0 < x ->
  calc_sqrt_p_from_amt true s l x < s /\ s < calc_sqrt_p_from_amt false s l x.
Proof.
  intros Hs Hl Hx. unfold calc_sqrt_p_from_amt. split.
  - pose proof (Qmult_lt_0_compat _ _ Hx Hs) as Hxs.
    pose proof (Qmult_lt_0_compat _ _ Hs Hxs) as Hsxs.
    apply Qlt_shift_div_r; [lra|].
    setoid_replace (s * (l + x * s)) with (l * s + s * (x * s)) by ring. lra.
  - assert (0 < x / l) by (apply Qlt_shift_div_l; lra). lra.
Qed.

Lemma fee_nonneg a g l : 0 <= a -> 0 < g -> g <= 1 -> 0 < l -> 0 <= (a - a * g ^ 2) / l.
Proof.
  intros Ha Hg0 Hg1 Hl. destruct (sqr_bounds Hg0 Hg1) as [H0 H1].
  apply Qle_shift_div_l; [assumption|]. nra.
Qed.

Lemma Forall_nth_in (P : Q -> Prop) xs i :
  Forall P xs -> (i < length xs)%nat -> P (nth i xs 0).
Proof.
  intros H. revert i. induction H as [|x xs Hx Hxs IH]; intros [|i] Hi; simpl in *;
    try lia; auto. apply IH. lia.
Qed.

Lemma Forall_nth_all (P : Q -> Prop) xs :
  (forall i, (i < length xs)%nat -> P (nth i xs 0)) -> Forall P xs.
Proof.
  induction xs as [|x xs IH]; intros H; constructor.
  - apply (H 0%nat). simpl. lia.
  - apply IH. intros i Hi. apply (H (S i)). simpl. lia.
Qed.

Lemma Forall_repeat_pos (s : Q) n : (0 < n)%nat -> (Forall (Qlt 0) (repeat s n) <-> 0 < s).
Proof.
  intros Hn. split.
  - destruct n as [|n]; [lia|]. simpl. intros H. inversion H; assumption.
  - intros Hs. induction n as [|n IH]; [lia|]. simpl. constructor; [assumption|].
    destruct n as [|n']; [constructor | apply IH; lia].
Qed.

End SwapFacts.

(* ------------------------------------------------------------------ *)
(** ** The swap, tier by tier *)

Section SwapPointwise.
Import Np NpFacts.

Lemma swap_pointwise is_token0 amt_desired self r self' :
  aligned self ->
  swap is_token0 amt_desired self = (Ok r, self') ->
  exists amts mask,
    _calc_tier_amts_in self is_token0 amt_desired = Ok (amts, mask) /\
    0 < amt_desired /\
    amts_in r = amts /\
    amt_in r = sum (select mask amts) /\
    aligned self' /\
    size self' = size self /\
    liquidity_arr self' = liquidity_arr self /\
    sqrt_gamma_arr self' = sqrt_gamma_arr self /\
    other_fee_growth_arr is_token0 self' = other_fee_growth_arr is_token0 self /\
    forall i, (i < size self)%nat ->
      nth i (sqrt_p_arr self') 0
      = (if nth i mask false
         then calc_sqrt_p_from_amt is_token0
                (nth i (sqrt_p_arr self) 0) (nth i (liquidity_arr self) 0)
                (nth i amts 0 * nth i (sqrt_gamma_arr self) 0 ^ 2)
         else nth i (sqrt_p_arr self) 0) /\
      nth i (sold_fee_growth_arr is_token0 self') 0
      = (if nth i mask false
         then nth i (sold_fee_growth_arr is_token0 self) 0
              + (nth i amts 0 - nth i amts 0 * nth i (sqrt_gamma_arr self) 0 ^ 2)
                / nth i (liquidity_arr self) 0
         else nth i (sold_fee_growth_arr is_token0 self) 0) /\
      nth i (fee_amts r) 0
      = (if nth i mask false
         then nth i amts 0 - nth i amts 0 * nth i (sqrt_gamma_arr self) 0 ^ 2
         else 0).
Proof.
  intros Hal Hswap. pose proof Hal as (HL & HP & HG & HF0 & HF1).
  destruct (swap_inv _ _ Hal Hswap)
    as (Hpos & amts & mask & Hcalc & Hsz & Hliq & Hsg & Hsp & Hf0 & Hf1 & Hin & Hfee & Hsum).
  destruct (calc_tier_amts_in_lengths _ _ _ Hcalc) as [Ha Hm].
  assert (Hg : length (sqr (sqrt_gamma_arr self)) = size self)
    by (unfold sqr; rewrite length_map; exact HG).
  exists amts, mask. repeat (split; [assumption|]).
  split.
  { unfold aligned. rewrite Hsz, Hliq, Hsg, Hsp, Hf0, Hf1.
    unfold add, sub, mul, div.
    destruct is_token0; repeat split; try assumption; len. }
  split; [assumption|]. split; [assumption|]. split; [assumption|].
  split; [destruct is_token0; simpl; assumption|].
  intros i Hi.
  assert (Hmul : nth i (mul amts (sqr (sqrt_gamma_arr self))) 0
                 = nth i amts 0 * nth i (sqrt_gamma_arr self) 0 ^ 2).
  { unfold mul, sqr. rewrite (nth_map2 _ _ _ 0 0) by len.
    rewrite (nth_map_in _ _ 0) by lia. reflexivity. }
  assert (Hsub : nth i (sub amts (mul amts (sqr (sqrt_gamma_arr self)))) 0
                 = nth i amts 0 - nth i amts 0 * nth i (sqrt_gamma_arr self) 0 ^ 2).
  { unfold sub. rewrite (nth_map2 _ _ _ 0 0) by (unfold mul; len).
    rewrite Hmul. reflexivity. }
  assert (Hgrow : forall fee, length fee = size self ->
            nth i (add fee (div (sub amts (mul amts (sqr (sqrt_gamma_arr self))))
                                (liquidity_arr self))) 0
            = nth i fee 0
              + (nth i amts 0 - nth i amts 0 * nth i (sqrt_gamma_arr self) 0 ^ 2)
                / nth i (liquidity_arr self) 0).
  { intros fee Hfl. unfold add, div.
    rewrite (nth_map2 _ _ _ 0 0) by (unfold sub, mul; len).
    rewrite (nth_map2 _ _ _ 0 0) by (unfold sub, mul; len).
    rewrite Hsub. reflexivity. }
  repeat split.
  - rewrite Hsp, nth_where by (unfold mul; len).
    rewrite (nth_map3 _ _ _ _ 0 0 0) by (unfold mul; len).
    rewrite Hmul. reflexivity.
  - destruct is_token0; simpl; rewrite ?Hf0, ?Hf1;
      rewrite nth_where by (unfold add, div, sub, mul; len);
      rewrite Hgrow by assumption; reflexivity.
  - rewrite Hfee, nth_where by (unfold sub, mul; len).
    unfold zeros. rewrite Hsub, nth_repeat_in by assumption. reflexivity.
Qed.

(** A swap that returns leaves a valid pool valid. *)
Lemma swap_preserves_valid is_token0 amt_desired self r self' :
  valid_pool self ->
  swap is_token0 amt_desired self = (Ok r, self') ->
  valid_pool self'.
Proof.
  intros Hv Hswap. pose proof Hv as (Hal & Hn & HLp & HPp & HGp).
  pose proof Hal as (HL & HP & HG & _).
  destruct (swap_pointwise _ _ Hal Hswap)
    as (amts & mask & Hcalc & Hpos & _ & _ & Hal' & Hsz & Hliq & Hsg & _ & Hpt).
  destruct (calc_tier_amts_in_result _ _ _ Hcalc) as (_ & Ha & Hm & Hnn & _).
  unfold valid_pool. rewrite Hsz, Hliq, Hsg.
  split; [assumption|]. split; [assumption|]. split; [assumption|].
  split; [|assumption].
  apply Forall_nth_all. intros i Hi.
  destruct Hal' as (_ & HP' & _). rewrite HP', Hsz in Hi.
  destruct (Hpt i Hi) as (Hp & _). rewrite Hp.
  destruct (nth i mask false).
  - apply price_after_positive.
    + apply Forall_nth_in; [assumption | lia].
    + apply Forall_nth_in; [assumption | lia].
    + assert (0 <= nth i amts 0) by (apply Forall_nth_in; [assumption | lia]).
      assert (Hgi : 0 < nth i (sqrt_gamma_arr self) 0 /\ nth i (sqrt_gamma_arr self) 0 <= 1)
        by (apply (@Forall_nth_in (fun g => 0 < g /\ g <= 1)); [assumption | lia]).
      destruct (sqr_bounds (proj1 Hgi) (proj2 Hgi)). nra.
  - apply Forall_nth_in; [assumption | lia].
Qed.

(** *** Fee growth *)

Lemma pointwise_le_refl xs : pointwise_le xs xs.
Proof. split; [reflexivity|]. intros i _. lra. Qed.

Lemma pointwise_le_trans xs ys zs :
  pointwise_le xs ys -> pointwise_le ys zs -> pointwise_le xs zs.
Proof.
  intros [Hl1 H1] [Hl2 H2]. split; [congruence|]. intros i Hi.
  specialize (H1 i Hi). specialize (H2 i ltac:(lia)). lra.
Qed.

(** One swap does not lower an accumulator. *)
Lemma swap_fee_growth_le is_token0 amt_desired self r self' :
  valid_pool self ->
  swap is_token0 amt_desired self = (Ok r, self') ->
  pointwise_le (fee0_growth_arr self) (fee0_growth_arr self') /\
  pointwise_le (fee1_growth_arr self) (fee1_growth_arr self').
Proof.
  intros Hv Hswap. pose proof Hv as (Hal & Hn & HLp & HPp & HGp).
  pose proof Hal as (HL & HP & HG & HF0 & HF1).
  destruct (swap_pointwise _ _ Hal Hswap)
    as (amts & mask & Hcalc & _ & _ & _ & Hal' & Hsz & _ & _ & Hother & Hpt).
  destruct (calc_tier_amts_in_result _ _ _ Hcalc) as (_ & Ha & Hm & Hnn & _).
  destruct Hal' as (_ & _ & _ & HF0' & HF1').
  assert (Hsold : pointwise_le (sold_fee_growth_arr is_token0 self)
                               (sold_fee_growth_arr is_token0 self')).
  { split; [destruct is_token0; simpl; lia|]. intros i Hi.
    assert (Hi' : (i < size self)%nat) by (destruct is_token0; simpl in Hi; lia).
    destruct (Hpt i Hi') as (_ & Hf & _). rewrite Hf.
    destruct (nth i mask false); [|lra].
    assert (Hgi : 0 < nth i (sqrt_gamma_arr self) 0 /\ nth i (sqrt_gamma_arr self) 0 <= 1)
      by (apply (@Forall_nth_in (fun g => 0 < g /\ g <= 1)); [assumption | lia]).
    assert (0 <= (nth i amts 0 - nth i amts 0 * nth i (sqrt_gamma_arr self) 0 ^ 2)
                 / nth i (liquidity_arr self) 0).
    { apply fee_nonneg; try tauto.
      - apply Forall_nth_in; [assumption | lia].
      - apply Forall_nth_in; [assumption | lia]. }
    lra. }
  destruct is_token0; simpl in Hsold, Hother; rewrite Hother;
    split; try assumption; apply pointwise_le_refl.
Qed.

Lemma swaps_to_valid p q : valid_pool p -> swaps_to p q -> valid_pool q.
Proof.
  intros Hv Hs. induction Hs as [|q q' b a r Hs IH Hswap]; [assumption|].
  eapply swap_preserves_valid; eassumption.
Qed.

Lemma swaps_to_fee_growth_le p q :
  valid_pool p -> swaps_to p q ->
  pointwise_le (fee0_growth_arr p) (fee0_growth_arr q) /\
  pointwise_le (fee1_growth_arr p) (fee1_growth_arr q).
Proof.
  intros Hv Hs. induction Hs as [|q q' b a r Hs [IH0 IH1] Hswap].
  - split; apply pointwise_le_refl.
  - destruct (@swap_fee_growth_le _ _ _ _ _ (swaps_to_valid Hv Hs) Hswap) as [H0 H1].
    split; eapply pointwise_le_trans; eassumption.
Qed.

End SwapPointwise.

(* ------------------------------------------------------------------ *)
(** ** The default pool *)

Section DefaultPool.

Lemma default_pool_init :
  Pool_init default_liquidity_arr default_sqrt_gamma_arr default_sqrt_p = Ok default_pool.
Proof. reflexivity. Qed.

Lemma default_pool_valid : valid_pool default_pool.
Proof.
  unfold valid_pool, aligned, default_pool; simpl.
  repeat split; try lia; repeat constructor; unfold Qlt, Qle; simpl; lia.
Qed.

Lemma default_pool_aligned : aligned default_pool.
Proof. exact (proj1 default_pool_valid). Qed.

Lemma nonneg_1 : 0 <= 1.
Proof. unfold Qle; simpl; lia. Qed.

End DefaultPool.

(* ------------------------------------------------------------------ *)
(** ** Tier allocator: the closed form, non-negativity, termination *)

Section AllocatorClaims.
Import Np NpFacts.

(** In exact arithmetic (every number a rational). At every iteration of the
    allocator's loop, on a valid pool and for an input amount >= 0, the amount
    assigned to each active tier [i] is [weight i * (amount + sum of active
    reserves) / (sum of active weights) - reserve i], and the amounts of the
    active tiers add up to the input amount. *)
Theorem exact_allocation_closed_form self is_token0 amount mask amts :
  valid_pool self ->
  0 <= amount ->
  loop_head (lsg_of self) (res_of self is_token0) amount (size self) mask amts ->
  let amts' := assign_amts (lsg_of self) (res_of self is_token0) amount mask amts in
  (forall i, (i < size self)%nat -> nth i mask false = true ->
             nth i amts' 0 == spec_allocation self is_token0 amount mask i) /\
  sigma_active mask (fun i => nth i amts' 0) == amount.
Proof.
  intros Hv Hamt Hh amts'. pose proof Hv as (Hal & Hn & _).
  destruct (loop_head_lengths Hh) as [Hm Ha].
  pose proof (length_lsg_of Hal) as Hlsg.
  pose proof (length_res_of is_token0 Hal) as Hres.
  assert (Hw : sum (select mask (lsg_of self)) == sigma_active mask (weight self)).
  { apply sum_select_sigma; [lia|]. intros j Hj. rewrite nth_lsg_of by (auto; lia).
    reflexivity. }
  assert (Hr : sum (select mask (res_of self is_token0))
               == sigma_active mask (reserve self is_token0)).
  { apply sum_select_sigma; [lia|]. intros j Hj. apply nth_res_of; [assumption | lia]. }
  split.
  - intros i Hi Hact. unfold amts'.
    rewrite (@assign_amts_where _ _ amount _ Hlsg Hres) by assumption.
    rewrite nth_where by (rewrite ?(@length_unconstrained _ _ amount _ Hlsg Hres mask); lia).
    rewrite Hact, (@nth_unconstrained _ _ amount _ Hlsg Hres) by assumption.
    rewrite nth_lsg_of, nth_res_of, Hw, Hr by assumption.
    reflexivity.
  - rewrite <- (sum_select_sigma mask amts').
    + apply (@sum_assign_amts _ _ amount _ Hlsg Hres (lsg_of_pos Hv)); try assumption.
      apply (@loop_head_nonempty _ _ _ _ Hlsg Hres (lsg_of_pos Hv) Hamt Hn _ _ Hh).
    + unfold amts', assign_amts. rewrite length_put. lia.
    + intros j Hj. reflexivity.
Qed.

(** C2.  For an input amount >= 0 the allocator returns an amount array
    whose every entry is non-negative and which is zero at every tier
    outside the returned mask.  (No positivity of the pool's numbers is
    needed for this.) *)
Theorem allocation_nonneg self is_token0 amount :
  aligned self ->
  0 <= amount ->
  exists amts mask,
    _calc_tier_amts_in self is_token0 amount = Ok (amts, mask) /\
    length amts = size self /\ length mask = size self /\
    Forall (Qle 0) amts /\
    (forall i, (i < size self)%nat -> nth i mask false = false -> nth i amts 0 = 0).
Proof.
  intros Hal Hamt.
  destruct (calc_tier_amts_in_exit self is_token0 Hamt)
    as (amts & mask & af & Hcalc & Hh & Hf & Hout).
  exists amts, mask.
  destruct (calc_tier_amts_in_lengths _ _ _ Hcalc) as [Ha Hm].
  destruct (loop_head_lengths Hh) as [Hm' Haf].
  destruct (@exit_nonneg mask
              (assign_amts (lsg_of self) (res_of self is_token0) amount mask af))
    as (Hnn & Hz & _); [unfold assign_amts; rewrite length_put; lia | assumption |].
  subst amts. repeat split; auto.
Qed.

Lemma allocation_nonneg_witness :
  aligned default_pool /\
  0 <= 1 /\
  exists amts mask,
    _calc_tier_amts_in default_pool true 1 = Ok (amts, mask) /\ Forall (Qle 0) amts.
Proof.
  split; [exact default_pool_aligned|]. split; [exact nonneg_1|].
  destruct (@allocation_nonneg default_pool true 1 default_pool_aligned nonneg_1)
    as (amts & mask & Hcalc & _ & _ & Hnn & _).
  exists amts, mask. split; assumption.
Defined.

(** In exact arithmetic (every number a rational). On a valid pool and for an
    input amount >= 0 the loop reaches its [break] within [size] executions of
    its body, and every execution of the body that does not break leaves
    strictly fewer active tiers. *)
Theorem exact_allocation_terminates self is_token0 amount :
  valid_pool self ->
  0 <= amount ->
  (exists r,
      calc_loop (size self) (lsg_of self) (res_of self is_token0) amount
                (full (size self) true) (zeros (size self)) = Some r /\
      _calc_tier_amts_in self is_token0 amount = Ok r) /\
  (forall mask amts,
      loop_head (lsg_of self) (res_of self is_token0) amount (size self) mask amts ->
      feasible mask (assign_amts (lsg_of self) (res_of self is_token0) amount mask amts)
      = false ->
      (count (and_ mask
                   (ge0 (assign_amts (lsg_of self) (res_of self is_token0) amount mask amts)))
       < count mask)%nat).
Proof.
  intros Hv Hamt. pose proof Hv as (Hal & Hn & _). split.
  - destruct (@calc_loop_bounded (lsg_of self) (res_of self is_token0) amount (size self)
                (length_lsg_of Hal) (length_res_of is_token0 Hal) (lsg_of_pos Hv) Hamt Hn
                (size self) (full (size self) true) (zeros (size self)))
      as [r Hrun].
    + apply lh_init.
    + rewrite count_full. lia.
    + exists r. split; [assumption|].
      unfold _calc_tier_amts_in. apply Qle_bool_iff in Hamt. rewrite Hamt.
      cbn [negb]. cbv zeta.
      rewrite (@calc_loop_more_fuel _ _ _ (size self) (S (size self)) _ _ _
                 (Nat.le_succ_diag_r _) Hrun).
      reflexivity.
  - intros mask amts _ Hf. apply mask_shrinks. assumption.
Qed.

(** Selling 1 of token0 to the default pool: the first pass assigns a
    negative amount to the tier with the higher fee, the second pass routes
    everything to the other tier. *)
Example allocation_drops_high_fee_tier :
  exists a,
    _calc_tier_amts_in default_pool true 1 = Ok ([0; a], [false; true]) /\ a == 1.
Proof.
  eexists. split; [vm_compute; reflexivity | reflexivity].
Qed.

End AllocatorClaims.

(* ------------------------------------------------------------------ *)
(** ** Price algebra and swap *)

Section SwapClaims.
Import Np NpFacts.

(** C4.  For liquidity > 0, sqrt_price0 > 0 and amount >= 0,
    [calc_sqrt_p_from_amt] returns
    [(liquidity * sqrt_price0) / (liquidity + amount * sqrt_price0)] when
    token0 is sold and [sqrt_price0 + amount / liquidity] when token1 is
    sold, both quotients having a positive divisor; [calc_amt_from_sqrt_p]
    returns [liquidity * (sqrt_price0 - sqrt_price1) / (sqrt_price0 * sqrt_price1)]
    for token0 and [liquidity * (sqrt_price1 - sqrt_price0)] for token1. *)
Theorem price_algebra_formulas liquidity sqrt_price0 sqrt_price1 amount :
  0 < liquidity -> 0 < sqrt_price0 -> 0 <= amount ->
  calc_sqrt_p_from_amt true sqrt_price0 liquidity amount
  = (liquidity * sqrt_price0) / (liquidity + amount * sqrt_price0) /\
  0 < liquidity + amount * sqrt_price0 /\
  calc_sqrt_p_from_amt false sqrt_price0 liquidity amount
  = sqrt_price0 + amount / liquidity /\
  calc_amt_from_sqrt_p true sqrt_price0 sqrt_price1 liquidity
  = liquidity * (sqrt_price0 - sqrt_price1) / (sqrt_price0 * sqrt_price1) /\
  calc_amt_from_sqrt_p false sqrt_price0 sqrt_price1 liquidity
  = liquidity * (sqrt_price1 - sqrt_price0).
Proof.
  intros Hl Hs Ha. unfold calc_sqrt_p_from_amt, calc_amt_from_sqrt_p.
  repeat split. nra.
Qed.

Lemma price_algebra_formulas_witness :
  (0 < 10000 /\ 0 < 1 /\ 0 <= 1000) /\
  calc_sqrt_p_from_amt true 1 10000 1000 = (10000 * 1) / (10000 + 1000 * 1).
Proof.
  assert (H1 : 0 < 10000) by (unfold Qlt; simpl; lia).
  assert (H2 : 0 < 1) by (unfold Qlt; simpl; lia).
  assert (H3 : 0 <= 1000) by (unfold Qle; simpl; lia).
  split; [auto|].
  exact (proj1 (@price_algebra_formulas 10000 1 1 1000 H1 H2 H3)).
Defined.

(** In exact arithmetic (every number a rational). After a swap with amount_in
    > 0 on a valid pool, every tier that received a strictly positive amount
    has a strictly smaller sqrt price when token0 was sold and a strictly
    larger one when token1 was sold. *)
Theorem exact_swap_moves_price is_token0 amt_desired self r self' i :
  valid_pool self ->
  0 < amt_desired ->
  swap is_token0 amt_desired self = (Ok r, self') ->
  (i < size self)%nat ->
  0 < nth i (amts_in r) 0 ->
  if is_token0
  then nth i (sqrt_p_arr self') 0 < nth i (sqrt_p_arr self) 0
  else nth i (sqrt_p_arr self) 0 < nth i (sqrt_p_arr self') 0.
Proof.
  intros Hv _ Hswap Hi Hamt. pose proof Hv as (Hal & Hn & HLp & HPp & HGp).
  pose proof Hal as (HL & HP & HG & _).
  destruct (swap_pointwise _ _ Hal Hswap)
    as (amts & mask & Hcalc & _ & Hin & _ & _ & _ & _ & _ & _ & Hpt).
  destruct (calc_tier_amts_in_result _ _ _ Hcalc) as (_ & Ha & Hm & Hnn & Hzero).
  destruct (Hpt i Hi) as (Hp & _). rewrite Hin in Hamt.
  destruct (nth i mask false) eqn:Hact.
  - assert (Hs : 0 < nth i (sqrt_p_arr self) 0)
      by (apply Forall_nth_in; [assumption | lia]).
    assert (Hl : 0 < nth i (liquidity_arr self) 0)
      by (apply Forall_nth_in; [assumption | lia]).
    assert (Hgi : 0 < nth i (sqrt_gamma_arr self) 0 /\ nth i (sqrt_gamma_arr self) 0 <= 1)
      by (apply (@Forall_nth_in (fun g => 0 < g /\ g <= 1)); [assumption | lia]).
    destruct (sqr_bounds (proj1 Hgi) (proj2 Hgi)) as [Hg0 _].
    pose proof (Qmult_lt_0_compat _ _ Hamt Hg0) as Hx.
    destruct (price_moves Hs Hl Hx) as [Hdown Hup].
    rewrite Hp. destruct is_token0; assumption.
  - rewrite (Hzero i Hact) in Hamt. lra.
Qed.

(** C6.  A swap that returns changes nothing but the sqrt price of the
    tiers in the active mask and, for the same tiers, the fee-growth
    accumulator of the sold token, which gains
    [fee_amts[i] / liquidity[i]]; size, liquidity, sqrt_gamma, the other
    token's accumulator and every entry of an inactive tier stay as they
    were. *)
Theorem swap_frame is_token0 amt_desired self r self' :
  aligned self ->
  swap is_token0 amt_desired self = (Ok r, self') ->
  exists amts mask,
    _calc_tier_amts_in self is_token0 amt_desired = Ok (amts, mask) /\
    size self' = size self /\
    liquidity_arr self' = liquidity_arr self /\
    sqrt_gamma_arr self' = sqrt_gamma_arr self /\
    other_fee_growth_arr is_token0 self' = other_fee_growth_arr is_token0 self /\
    length (sqrt_p_arr self') = size self /\
    length (sold_fee_growth_arr is_token0 self') = size self /\
    forall i, (i < size self)%nat ->
      (nth i mask false = false ->
       nth i (sqrt_p_arr self') 0 = nth i (sqrt_p_arr self) 0 /\
       nth i (sold_fee_growth_arr is_token0 self') 0
       = nth i (sold_fee_growth_arr is_token0 self) 0) /\
      (nth i mask false = true ->
       nth i (sold_fee_growth_arr is_token0 self') 0
       = nth i (sold_fee_growth_arr is_token0 self) 0
         + nth i (fee_amts r) 0 / nth i (liquidity_arr self) 0).
Proof.
  intros Hal Hswap.
  destruct (swap_pointwise _ _ Hal Hswap)
    as (amts & mask & Hcalc & _ & _ & _ & Hal' & Hsz & Hliq & Hsg & Hother & Hpt).
  exists amts, mask. repeat (split; [assumption|]).
  destruct Hal' as (_ & HP' & _ & HF0' & HF1').
  split; [lia|]. split; [destruct is_token0; simpl; lia|].
  intros i Hi. destruct (Hpt i Hi) as (Hp & Hf & Hfee).
  split; intros Hact; rewrite Hact in *.
  - split; assumption.
  - rewrite Hf, Hfee. reflexivity.
Qed.

Lemma swap_frame_witness :
  aligned default_pool /\
  exists r self',
    swap true 1 default_pool = (Ok r, self') /\
    liquidity_arr self' = liquidity_arr default_pool /\
    fee1_growth_arr self' = fee1_growth_arr default_pool.
Proof.
  split; [exact default_pool_aligned|].
  assert (Hpos : 0 < 1) by (unfold Qlt; simpl; lia).
  destruct (swap_returns true default_pool Hpos) as (r & self' & Hswap).
  exists r, self'. split; [exact Hswap|].
  destruct (swap_frame true 1 default_pool_aligned Hswap)
    as (amts & mask & _ & _ & Hliq & _ & Hother & _).
  split; [exact Hliq | exact Hother].
Defined.

(** In exact arithmetic (every number a rational). [swap] fails exactly when
    amount_in <= 0; the failure is the assertion's, and it leaves the pool as
    it was. *)
Theorem exact_swap_fails_iff is_token0 amt_desired self :
  aligned self ->
  (failed (fst (swap is_token0 amt_desired self)) = true <-> amt_desired <= 0) /\
  (failed (fst (swap is_token0 amt_desired self)) = true ->
   fst (swap is_token0 amt_desired self) = AssertionError /\
   snd (swap is_token0 amt_desired self) = self).
Proof.
  intros _.
  destruct (Qlt_le_dec 0 amt_desired) as [Hpos|Hle].
  - destruct (swap_returns is_token0 self Hpos) as (r & self' & Hswap).
    rewrite Hswap. simpl. split; [split|]; intros H; try discriminate. lra.
  - rewrite (swap_rejects is_token0 self Hle). simpl. tauto.
Qed.

(** In exact arithmetic (every number a rational). A pool is constructed with
    both fee-growth accumulators at 0; along any finite sequence of swaps that
    return, starting from a valid constructed pool, no entry of either
    accumulator ever decreases: whenever state [q] comes after state [p] in
    the sequence, each entry in [q] is at least the entry in [p]. *)
Theorem exact_fee_growth_monotone liquidity sqrt_gamma sqrt_p p0 p q :
  Pool_init liquidity sqrt_gamma sqrt_p = Ok p0 ->
  valid_pool p0 ->
  swaps_to p0 p ->
  swaps_to p q ->
  (fee0_growth_arr p0 = zeros (size p0) /\ fee1_growth_arr p0 = zeros (size p0)) /\
  pointwise_le (fee0_growth_arr p) (fee0_growth_arr q) /\
  pointwise_le (fee1_growth_arr p) (fee1_growth_arr q).
Proof.
  intros Hinit Hv Hp Hq. split.
  - unfold Pool_init in Hinit. inversion Hinit; subst. simpl. split; reflexivity.
  - apply swaps_to_fee_growth_le; [|assumption].
    eapply swaps_to_valid; eassumption.
Qed.

(** Outside the valid states the accumulators can decrease: with a
    sqrt_gamma of 2 the fee of a swap is negative. *)
Example fee_growth_needs_valid_pool :
  exists r self',
    swap true 1 (mkPool 1 [1] [1] [2] [0] [0]) = (Ok r, self') /\
    nth 0 (fee0_growth_arr self') 0 == -3.
Proof.
  eexists. eexists. split; [vm_compute; reflexivity | reflexivity].
Qed.

End SwapClaims.

(* ------------------------------------------------------------------ *)
(** ** Construction, and the active mask *)

Section ConstructionClaims.
Import Np NpFacts.

(** C9, as stated, fails: the constructor accepts arrays of different
    lengths, a non-positive liquidity, a sqrt_gamma above 1 and a zero
    initial sqrt price, all at once. *)
Lemma Pool_init_accepts_invalid_args :
  invalid_args [10000; -1] [2] 0 /\
  failed (Pool_init [10000; -1] [2] 0) = false /\
  Pool_init [10000; -1] [2] 0
  = Ok {| size := 2;
          liquidity_arr := [10000; -1];
          sqrt_p_arr := [0; 0];
          sqrt_gamma_arr := [2];
          fee0_growth_arr := [0; 0];
          fee1_growth_arr := [0; 0] |}.
Proof.
  split; [left; simpl; lia|]. split; reflexivity.
Qed.

(** C9, amended.  Construction never fails and inspects nothing: the pool
    has one tier per entry of the liquidity list, holds the two lists as
    given, has the initial sqrt price at every tier and both fee-growth
    accumulators at zero.  The pool built is in a valid state exactly when
    there is at least one tier and none of the defects is present: equal
    lengths, every liquidity positive, every sqrt_gamma in (0, 1], a
    positive initial sqrt price. *)
Theorem Pool_init_never_fails liquidity sqrt_gamma sqrt_p :
  exists p,
    Pool_init liquidity sqrt_gamma sqrt_p = Ok p /\
    size p = length liquidity /\
    liquidity_arr p = liquidity /\
    sqrt_gamma_arr p = sqrt_gamma /\
    sqrt_p_arr p = repeat sqrt_p (length liquidity) /\
    fee0_growth_arr p = zeros (length liquidity) /\
    fee1_growth_arr p = zeros (length liquidity) /\
    (valid_pool p <-> liquidity <> [] /\ ~ invalid_args liquidity sqrt_gamma sqrt_p).
Proof.
  eexists. split; [reflexivity|]. simpl. repeat (split; [reflexivity|]).
  unfold valid_pool, aligned, invalid_args; simpl.
  rewrite !repeat_length. split.
  - intros ((_ & _ & Hlen & _) & Hn & HL & HP & HG).
    apply Forall_repeat_pos in HP; [|assumption].
    split; [intros Hnil; subst; simpl in Hn; lia|].
    intros [H|[H|[H|H]]].
    + lia.
    + apply Exists_exists in H. destruct H as (x & Hin & Hx).
      rewrite Forall_forall in HL. specialize (HL x Hin). lra.
    + apply Exists_exists in H. destruct H as (x & Hin & Hx).
      rewrite Forall_forall in HG. specialize (HG x Hin). lra.
    + lra.
  - intros (Hne & Hinv).
    assert (Hn : (0 < length liquidity)%nat)
      by (destruct liquidity; [congruence | simpl; lia]).
    assert (Hlen : length liquidity = length sqrt_gamma).
    { destruct (Nat.eq_dec (length liquidity) (length sqrt_gamma)); [assumption|].
      exfalso. apply Hinv. left. assumption. }
    repeat split; try lia.
    + apply Forall_forall. intros x Hin.
      destruct (Qlt_le_dec 0 x) as [H|H]; [assumption|].
      exfalso. apply Hinv. right. left. apply Exists_exists. eauto.
    + apply Forall_repeat_pos; [assumption|].
      destruct (Qlt_le_dec 0 sqrt_p) as [H|H]; [assumption|].
      exfalso. apply Hinv. right. right. right. assumption.
    + apply Forall_forall. intros x Hin.
      destruct (Qlt_le_dec 0 x) as [H0|H0].
      * destruct (Qlt_le_dec 1 x) as [H1|H1]; [|split; assumption].
        exfalso. apply Hinv. right. right. left. apply Exists_exists. eauto.
      * exfalso. apply Hinv. right. right. left. apply Exists_exists. eauto.
Qed.

(** In exact arithmetic (every number a rational). On a valid pool and for an
    input amount >= 0, at every iteration of the allocator's loop the active
    mask is non-empty, the sum of the active weights (the divisor of the
    allocation formula) is strictly positive, and some active tier is assigned
    a non-negative amount; and a swap of an amount > 0 returns with an
    aggregate [amt_in] equal to the amount, hence strictly positive, so that
    the divisor of [fee_bps] is not zero. *)
Theorem exact_active_mask_nonempty self is_token0 amount :
  valid_pool self ->
  0 <= amount ->
  (forall mask amts,
      loop_head (lsg_of self) (res_of self is_token0) amount (size self) mask amts ->
      (0 < count mask)%nat /\
      0 < sum (select mask (lsg_of self)) /\
      exists i, (i < size self)%nat /\ nth i mask false = true /\
                0 <= nth i (assign_amts (lsg_of self) (res_of self is_token0)
                                        amount mask amts) 0) /\
  (0 < amount ->
   exists r self',
     swap is_token0 amount self = (Ok r, self') /\
     amt_in r == amount /\ 0 < amt_in r /\
     fee_bps r = fee_amt r / amt_in r * 10000).
Proof.
  intros Hv Hamt. pose proof Hv as (Hal & Hn & _).
  pose proof (length_lsg_of Hal) as Hlsg.
  pose proof (length_res_of is_token0 Hal) as Hres.
  split.
  - intros mask amts Hh.
    destruct (loop_head_lengths Hh) as [Hm Ha].
    pose proof (@loop_head_nonempty _ _ _ _ Hlsg Hres (lsg_of_pos Hv) Hamt Hn _ _ Hh) as Hc.
    split; [assumption|].
    split; [apply (@sum_weights_pos _ (res_of self is_token0) _ Hlsg Hres (lsg_of_pos Hv));
            assumption|].
    pose proof (@sum_assign_amts _ _ amount _ Hlsg Hres (lsg_of_pos Hv) mask amts Hm Ha Hc)
      as Hsum.
    set (a' := assign_amts (lsg_of self) (res_of self is_token0) amount mask amts) in *.
    assert (Hne : select mask a' <> []).
    { intros Hnil. apply (f_equal (@length Q)) in Hnil.
      rewrite length_select in Hnil
        by (unfold a', assign_amts; rewrite length_put; lia).
      simpl in Hnil. lia. }
    destruct (@exists_nonneg (select mask a') Hne) as (x & Hin & Hx); [lra|].
    destruct (In_select _ _ _ Hin) as (i & Hi & Hact & Hnth).
    exists i. rewrite Hnth. repeat split; try assumption. lia.
  - intros Hpos.
    destruct (swap_returns is_token0 self Hpos) as (r & self' & Hswap).
    exists r, self'. split; [assumption|].
    destruct (swap_pointwise _ _ Hal Hswap) as (amts & mask & Hcalc & _ & _ & Hin & _).
    destruct (@calc_tier_amts_in_sum _ _ _ _ _ Hv Hcalc) as [Hsum _].
    rewrite Hin. split; [assumption|]. split; [lra|].
    rewrite <- Hin. eapply swap_fee_bps; eassumption.
Qed.

End ConstructionClaims.

(* ------------------------------------------------------------------ *)
(** ** The pool without tiers *)

Section EmptyPool.
Import Np NpFacts.

(** X19.  On a pool without tiers the allocator's loop breaks on its first
    pass with nothing allocated: for every amount >= 0 it returns an empty
    amount array and an empty mask, so the input is not conserved there. *)
Theorem allocation_on_empty_pool self is_token0 amount :
  aligned self ->
  size self = 0%nat ->
  0 <= amount ->
  _calc_tier_amts_in self is_token0 amount = Ok ([], []).
Proof.
  intros (HL & HP & HG & _) Hsz Hamt. rewrite Hsz in *.
  unfold _calc_tier_amts_in, lsg_of, res_of. rewrite Hsz.
  apply Qle_bool_iff in Hamt. rewrite Hamt.
  destruct (liquidity_arr self); [|discriminate].
  destruct (sqrt_p_arr self); [|discriminate].
  destruct (sqrt_gamma_arr self); [|discriminate].
  destruct is_token0; reflexivity.
Qed.

Lemma allocation_on_empty_pool_witness :
  aligned (mkPool 0 [] [] [] [] []) /\
  size (mkPool 0 [] [] [] [] []) = 0%nat /\
  0 <= 1 /\
  _calc_tier_amts_in (mkPool 0 [] [] [] [] []) true 1 = Ok ([], []).
Proof.
  assert (Hal : aligned (mkPool 0 [] [] [] [] [])) by (repeat split).
  split; [exact Hal|]. split; [reflexivity|]. split; [exact nonneg_1|].
  exact (@allocation_on_empty_pool (mkPool 0 [] [] [] [] []) true 1 Hal eq_refl nonneg_1).
Defined.

End EmptyPool.

(* ------------------------------------------------------------------ *)
(** ** Binary64: the allocator's loop *)

Ltac flen :=
  unfold F64.add, F64.sub, F64.mul, F64.div, F64.mul_s, F64.div_s, F64.sqr, F64.ge0,
    F64.zeros, Np.full, Np.and_, Np.invert in *;
  repeat first [ rewrite NpFacts.length_map2 | rewrite NpFacts.length_map3
               | rewrite length_map | rewrite NpFacts.length_put
               | rewrite NpFacts.length_put_scalar | rewrite repeat_length ];
  first [ lia | rewrite NpFacts.length_where by flen; flen ].

Section F64Loop.
Import Np NpFacts.

Variables (lsg res : F64.ndarray) (amount : float) (n : nat).

Lemma f64_all_ge0 xs : all (F64.ge0 xs) = forallb (PrimFloat.leb 0) xs.
Proof.
  unfold all, F64.ge0. induction xs as [|x xs IH]; simpl; auto. rewrite IH; reflexivity.
Qed.

(** A pass that does not break drops at least one tier: some active entry
    failed [>= 0], as a negative number or as a NaN. *)
Lemma f64_mask_shrinks mask amts :
  F64.feasible mask amts = false ->
  (count (and_ mask (F64.ge0 amts)) < count mask)%nat.
Proof.
  unfold F64.feasible. rewrite f64_all_ge0. intros Hf.
  apply filter_length_lt in Hf.
  unfold F64.ge0. rewrite count_and_map.
  pose proof (length_select_le mask amts). lia.
Qed.

(** With more fuel than active tiers the loop reaches its [break]. *)
Lemma f64_calc_loop_total fuel :
  forall mask amts,
    (count mask < fuel)%nat ->
    exists r, F64.calc_loop fuel lsg res amount mask amts = Some r.
Proof.
  induction fuel as [|fuel IH]; intros mask amts Hc; [lia|].
  simpl. destruct (F64.feasible mask (F64.assign_amts lsg res amount mask amts)) eqn:Hf.
  - eexists; reflexivity.
  - apply IH. apply f64_mask_shrinks in Hf. lia.
Qed.

(** What the loop returns is what its last pass left, the passes before it
    not having broken. *)
Lemma f64_calc_loop_passes fuel :
  forall mask amts r,
    F64.calc_loop fuel lsg res amount mask amts = Some r ->
    exists ps m a,
      F64.calc_passes fuel lsg res amount mask amts = ps ++ [(m, a)] /\
      Forall (fun p => F64.feasible (fst p) (snd p) = false) ps /\
      F64.feasible m a = true /\
      r = (put_scalar (invert m) a 0%float, m).
Proof.
  induction fuel as [|fuel IH]; intros mask amts r Hrun; [discriminate|].
  simpl in *.
  destruct (F64.feasible mask (F64.assign_amts lsg res amount mask amts)) eqn:Hf.
  - inversion Hrun; subst. exists [], mask, (F64.assign_amts lsg res amount mask amts).
    repeat split; auto.
  - destruct (IH _ _ _ Hrun) as (ps & m & a & Hps & Hall & Hfm & Hr).
    exists ((mask, F64.assign_amts lsg res amount mask amts) :: ps), m, a.
    rewrite Hps. repeat split; auto.
Qed.

Lemma f64_calc_passes_length fuel :
  forall mask amts, (length (F64.calc_passes fuel lsg res amount mask amts) <= fuel)%nat.
Proof.
  induction fuel as [|fuel IH]; intros mask amts; simpl; [lia|].
  destruct (F64.feasible mask (F64.assign_amts lsg res amount mask amts)); simpl.
  - lia.
  - specialize (IH (and_ mask (F64.ge0 (F64.assign_amts lsg res amount mask amts)))
                   (F64.assign_amts lsg res amount mask amts)). lia.
Qed.

Hypothesis Hlsg : length lsg = n.
Hypothesis Hres : length res = n.

Lemma f64_assign_amts_where mask amts :
  length mask = n -> length amts = n ->
  F64.assign_amts lsg res amount mask amts
  = where_ mask (F64.unconstrained lsg res amount mask) amts.
Proof.
  intros Hm Ha. unfold F64.assign_amts, F64.unconstrained, F64.sub, F64.div_s, F64.mul_s.
  rewrite <- !select_map, <- select_map2, put_select; try reflexivity;
    rewrite ?length_map2, ?length_map; lia.
Qed.

Lemma f64_nth_unconstrained mask i :
  (i < n)%nat ->
  nth i (F64.unconstrained lsg res amount mask) 0%float
  = (nth i lsg 0 * (amount + F64.sum (select mask res)) / F64.sum (select mask lsg)
     - nth i res 0)%float.
Proof.
  intros Hi. unfold F64.unconstrained, F64.sub, F64.div_s, F64.mul_s.
  rewrite (nth_map2 _ _ _ 0%float 0%float) by (rewrite ?length_map; lia).
  rewrite (nth_map_in _ _ 0%float) by (rewrite ?length_map; lia).
  rewrite (nth_map_in _ _ 0%float) by lia. reflexivity.
Qed.

(** In every pass the arrays keep their length, and every active entry is
    the value of the formula of line 92 at its tier. *)
Lemma f64_calc_passes_formula fuel :
  forall mask amts,
    length mask = n -> length amts = n ->
    Forall (fun p =>
              length (fst p) = n /\ length (snd p) = n /\
              forall i, (i < n)%nat -> nth i (fst p) false = true ->
                nth i (snd p) 0%float
                = (nth i lsg 0 * (amount + F64.sum (select (fst p) res))
                   / F64.sum (select (fst p) lsg)
                   - nth i res 0)%float)
           (F64.calc_passes fuel lsg res amount mask amts).
Proof.
  induction fuel as [|fuel IH]; intros mask amts Hm Ha; simpl; [constructor|].
  assert (Hla : length (F64.assign_amts lsg res amount mask amts) = n)
    by (unfold F64.assign_amts; rewrite length_put; exact Ha).
  constructor.
  - simpl. repeat split; try assumption.
    intros i Hi Hact. rewrite f64_assign_amts_where by assumption.
    rewrite nth_where
      by (unfold F64.unconstrained, F64.sub, F64.div_s, F64.mul_s;
          rewrite ?length_map2, ?length_map; lia).
    rewrite Hact. apply f64_nth_unconstrained. assumption.
  - destruct (F64.feasible mask (F64.assign_amts lsg res amount mask amts)); [constructor|].
    apply IH; [|assumption]. unfold and_, F64.ge0. rewrite length_map2, length_map. lia.
Qed.

End F64Loop.

(* ------------------------------------------------------------------ *)
(** ** Binary64: the allocator on a pool *)

Section F64Allocator.
Import Np NpFacts.

Lemma f64_length_lsg_of self : F64.aligned self -> length (F64.lsg_of self) = F64.size self.
Proof. intros (HL & HP & HG & _). unfold F64.lsg_of. flen. Qed.

Lemma f64_length_res_of self is_token0 :
  F64.aligned self -> length (F64.res_of self is_token0) = F64.size self.
Proof. intros (HL & HP & HG & _). unfold F64.res_of. destruct is_token0; flen. Qed.

Lemma map_seq_ext (f : nat -> float) (xs : list float) :
  (forall i, (i < length xs)%nat -> nth i xs 0%float = f i) ->
  xs = map f (seq 0 (length xs)).
Proof.
  intros H. apply (nth_ext _ _ 0%float 0%float).
  - rewrite length_map, length_seq. reflexivity.
  - intros i Hi. rewrite (nth_map_in f (seq 0 (length xs)) 0%nat 0%float)
      by (rewrite length_seq; exact Hi).
    rewrite seq_nth by exact Hi. apply H. exact Hi.
Qed.

Lemma f64_lsg_of_weights self :
  F64.aligned self ->
  F64.lsg_of self = map (F64.weight self) (seq 0 (F64.size self)).
Proof.
  intros Hal. pose proof Hal as (HL & HP & HG & _).
  rewrite <- (f64_length_lsg_of Hal). apply map_seq_ext.
  intros i Hi. rewrite (f64_length_lsg_of Hal) in Hi.
  unfold F64.lsg_of, F64.div, F64.weight. apply nth_map2; lia.
Qed.

Lemma f64_res_of_reserves self is_token0 :
  F64.aligned self ->
  F64.res_of self is_token0 = map (F64.reserve self is_token0) (seq 0 (F64.size self)).
Proof.
  intros Hal. pose proof Hal as (HL & HP & HG & _).
  rewrite <- (f64_length_res_of is_token0 Hal). apply map_seq_ext.
  intros i Hi. rewrite (f64_length_res_of is_token0 Hal) in Hi.
  unfold F64.res_of, F64.div, F64.mul, F64.sqr, F64.reserve, F64.gamma_at.
  destruct is_token0;
    rewrite (nth_map2 _ _ _ 0%float 0%float) by (rewrite ?length_map2, ?length_map; lia);
    rewrite (nth_map2 _ _ _ 0%float 0%float) by lia;
    rewrite (nth_map_in _ _ 0%float) by lia;
    reflexivity.
Qed.

(** For an amount that passes the assertion the allocator returns what the
    last of its passes left. *)
Lemma f64_calc_tier_amts_in_passes self is_token0 amount :
  PrimFloat.leb 0 amount = true ->
  exists ps mask a,
    F64._calc_tier_amts_in self is_token0 amount
    = Ok (put_scalar (invert mask) a 0%float, mask) /\
    F64.passes_of self is_token0 amount = ps ++ [(mask, a)] /\
    Forall (fun p => F64.feasible (fst p) (snd p) = false) ps /\
    F64.feasible mask a = true.
Proof.
  intros Hamt. unfold F64._calc_tier_amts_in, F64.passes_of. rewrite Hamt.
  cbn [negb]. cbv zeta.
  destruct (@f64_calc_loop_total (F64.lsg_of self) (F64.res_of self is_token0) amount
              (S (F64.size self)) (full (F64.size self) true) (F64.zeros (F64.size self)))
    as [r Hrun].
  { rewrite count_full. lia. }
  rewrite Hrun.
  destruct (f64_calc_loop_passes _ _ _ _ _ _ Hrun) as (ps & m & a & Hps & Hall & Hf & Hr).
  subst r. exists ps, m, a. auto.
Qed.

Lemma f64_passes_lengths self is_token0 amount :
  Forall (fun p => length (fst p) = F64.size self /\ length (snd p) = F64.size self)
         (F64.passes_of self is_token0 amount).
Proof.
  unfold F64.passes_of.
  generalize (S (F64.size self)) as fuel.
  assert (Hm : length (full (F64.size self) true) = F64.size self) by apply length_full.
  assert (Ha : length (F64.zeros (F64.size self)) = F64.size self) by apply repeat_length.
  revert Hm Ha. generalize (full (F64.size self) true) as mask.
  generalize (F64.zeros (F64.size self)) as amts.
  intros amts mask Hm Ha fuel. revert mask amts Hm Ha.
  induction fuel as [|fuel IH]; intros mask amts Hm Ha; simpl; [constructor|].
  assert (Hla : length (F64.assign_amts (F64.lsg_of self) (F64.res_of self is_token0)
                                        amount mask amts) = F64.size self)
    by (unfold F64.assign_amts; rewrite length_put; exact Ha).
  constructor; [simpl; auto|].
  destruct (F64.feasible mask _); [constructor|].
  apply IH; [|assumption]. unfold and_, F64.ge0. rewrite length_map2, length_map. lia.
Qed.

End F64Allocator.

(* ------------------------------------------------------------------ *)
(** ** Tier allocator, binary64: the formula and the passes *)

Section F64AllocatorClaims.
Import Np NpFacts.

Lemma f64_default_pool_aligned : F64.aligned F64.default_pool.
Proof. repeat split. Qed.

(** C1, as stated, fails on the program's numbers.  [Pool()] asked to
    allocate 1000 of token0 keeps both tiers in its one pass, and the two
    amounts it assigns, 494.28403886967135 and 505.71596113032683, add up to
    999.9999999999982, which is below 1000. *)
Lemma f64_allocation_sum_below_amount :
  F64.valid_numbers F64.default_pool = true /\
  PrimFloat.leb 0 1000 = true /\
  F64.passes_of F64.default_pool true 1000
  = [([true; true], [0x1.ee48b6c578080p+8%float; 0x1.f9b7493a87f60p+8%float])] /\
  F64._calc_tier_amts_in F64.default_pool true 1000
  = Ok ([0x1.ee48b6c578080p+8%float; 0x1.f9b7493a87f60p+8%float], [true; true]) /\
  F64.sum (select [true; true] [0x1.ee48b6c578080p+8%float; 0x1.f9b7493a87f60p+8%float])
  = 0x1.f3ffffffffff0p+9%float /\
  PrimFloat.eqb 0x1.f3ffffffffff0p+9 1000 = false.
Proof. repeat split; vm_compute; reflexivity. Qed.

(** C1, amended.  On a pool whose arrays all have [size] entries and for
    an amount that passes the assertion, the allocator returns, and in every
    pass of its loop the amount assigned to each active tier [i] is, in
    binary64 and in the order of the operations of line 92,
    [weight i * (amount + sum of active reserves) / (sum of active weights)
     - reserve i];
    the array returned holds that value, for the final mask, at every tier of
    the final mask and 0 at every other tier.  (That the active amounts add
    up to the amount is not part of it.) *)
Theorem f64_allocation_formula self is_token0 amount :
  F64.aligned self ->
  PrimFloat.leb 0 amount = true ->
  exists amts mask ps a,
    F64._calc_tier_amts_in self is_token0 amount = Ok (amts, mask) /\
    F64.passes_of self is_token0 amount = ps ++ [(mask, a)] /\
    Forall (fun p =>
              forall i, (i < F64.size self)%nat -> nth i (fst p) false = true ->
                nth i (snd p) 0%float
                = F64.spec_allocation self is_token0 amount (fst p) i)
           (F64.passes_of self is_token0 amount) /\
    forall i, (i < F64.size self)%nat ->
      nth i amts 0%float
      = if nth i mask false
        then F64.spec_allocation self is_token0 amount mask i
        else 0%float.
Proof.
  intros Hal Hamt.
  destruct (f64_calc_tier_amts_in_passes self is_token0 Hamt)
    as (ps & mask & a & Hcalc & Hps & _ & _).
  exists (put_scalar (invert mask) a 0%float), mask, ps, a.
  split; [assumption|]. split; [assumption|].
  assert (Hall : Forall (fun p =>
              forall i, (i < F64.size self)%nat -> nth i (fst p) false = true ->
                nth i (snd p) 0%float
                = F64.spec_allocation self is_token0 amount (fst p) i)
           (F64.passes_of self is_token0 amount)).
  { pose proof (@f64_calc_passes_formula (F64.lsg_of self) (F64.res_of self is_token0) amount
                  (F64.size self) (f64_length_lsg_of Hal) (f64_length_res_of is_token0 Hal)
                  (S (F64.size self)) (full (F64.size self) true) (F64.zeros (F64.size self))
                  (length_full _ _) (repeat_length _ _)) as Hform.
    unfold F64.passes_of. eapply Forall_impl; [|exact Hform].
    intros [m a'] (Hm & Ha & Hnth) i Hi Hact. simpl in *.
    rewrite (Hnth i Hi Hact). unfold F64.spec_allocation, F64.sigma_active.
    rewrite <- (f64_lsg_of_weights Hal), <- (f64_res_of_reserves is_token0 Hal).
    assert (Hw : nth i (F64.lsg_of self) 0%float = F64.weight self i).
    { rewrite (f64_lsg_of_weights Hal).
      rewrite (nth_map_in _ _ 0%nat) by (rewrite length_seq; exact Hi).
      rewrite seq_nth by exact Hi. reflexivity. }
    assert (Hr : nth i (F64.res_of self is_token0) 0%float = F64.reserve self is_token0 i).
    { rewrite (f64_res_of_reserves is_token0 Hal).
      rewrite (nth_map_in _ _ 0%nat) by (rewrite length_seq; exact Hi).
      rewrite seq_nth by exact Hi. reflexivity. }
    rewrite Hw, Hr. reflexivity. }
  split; [exact Hall|].
  intros i Hi.
  pose proof (f64_passes_lengths self is_token0 amount) as Hlen.
  rewrite Hps in Hlen, Hall.
  apply Forall_app in Hlen. destruct Hlen as [_ Hlast].
  inversion Hlast as [|? ? [Hm Ha] _]; subst. simpl in Hm, Ha.
  apply Forall_app in Hall. destruct Hall as [_ Hall].
  inversion Hall as [|? ? Hform _]; subst. simpl in Hform.
  rewrite put_scalar_invert by lia.
  rewrite nth_where by (rewrite ?repeat_length; lia).
  destruct (nth i mask false) eqn:Hact.
  - apply Hform; assumption.
  - apply nth_repeat_in. lia.
Qed.

Lemma f64_allocation_formula_witness :
  F64.aligned F64.default_pool /\
  PrimFloat.leb 0 1000 = true /\
  exists amts mask,
    F64._calc_tier_amts_in F64.default_pool true 1000 = Ok (amts, mask) /\
    forall i, (i < 2)%nat ->
      nth i amts 0%float
      = if nth i mask false
        then F64.spec_allocation F64.default_pool true 1000 mask i
        else 0%float.
Proof.
  split; [exact f64_default_pool_aligned|]. split; [reflexivity|].
  destruct (@f64_allocation_formula F64.default_pool true 1000%float
              f64_default_pool_aligned eq_refl) as (amts & mask & ps & a & H1 & _ & _ & H4).
  exists amts, mask. split; assumption.
Defined.

(** C3, as stated, fails on the program's numbers.  On the valid two-tier
    pool [Pool([100, 7], [0.9375, 0.375], 7.0)], asked to allocate 0 of
    token1, the loop runs its body three times: the second pass leaves
    -1.1368683772161603e-13 where exact arithmetic has 0, so the last tier is
    dropped too and a third pass runs on the empty mask. *)
Lemma f64_three_passes_on_two_tiers :
  F64.valid_numbers F64.pool_three_passes = true /\
  F64.aligned F64.pool_three_passes /\
  PrimFloat.leb 0 0 = true /\
  F64.calc_loop 2 (F64.lsg_of F64.pool_three_passes) (F64.res_of F64.pool_three_passes false)
                0 (full 2 true) (F64.zeros 2) = None /\
  length (F64.passes_of F64.pool_three_passes false 0) = 3%nat /\
  F64._calc_tier_amts_in F64.pool_three_passes false 0
  = Ok ([0%float; 0%float], [false; false]).
Proof. repeat split; vm_compute; reflexivity. Qed.

(** C3, amended.  On a pool whose arrays all have [size] entries and for
    an amount that passes the assertion, the loop reaches its [break] within
    [size + 1] executions of its body: at most [size] executions do not break,
    each of them leaves strictly fewer active tiers, and the one after them
    breaks. *)
Theorem f64_allocation_terminates self is_token0 amount :
  F64.aligned self ->
  PrimFloat.leb 0 amount = true ->
  exists r ps mask a,
    F64.calc_loop (S (F64.size self)) (F64.lsg_of self) (F64.res_of self is_token0) amount
                  (full (F64.size self) true) (F64.zeros (F64.size self)) = Some r /\
    F64._calc_tier_amts_in self is_token0 amount = Ok r /\
    F64.passes_of self is_token0 amount = ps ++ [(mask, a)] /\
    (length ps <= F64.size self)%nat /\
    Forall (fun p =>
              F64.feasible (fst p) (snd p) = false /\
              (count (and_ (fst p) (F64.ge0 (snd p))) < count (fst p))%nat) ps /\
    F64.feasible mask a = true.
Proof.
  intros _ Hamt.
  destruct (f64_calc_tier_amts_in_passes self is_token0 Hamt)
    as (ps & mask & a & Hcalc & Hps & Hall & Hf).
  exists (put_scalar (invert mask) a 0%float, mask), ps, mask, a.
  split.
  { unfold F64._calc_tier_amts_in in Hcalc. rewrite Hamt in Hcalc.
    cbn [negb] in Hcalc. cbv zeta in Hcalc.
    destruct (F64.calc_loop _ _ _ _ _ _) as [r|]; [|discriminate].
    inversion Hcalc; subst. reflexivity. }
  split; [assumption|]. split; [assumption|]. split.
  { pose proof (f64_calc_passes_length (F64.lsg_of self) (F64.res_of self is_token0) amount
                  (S (F64.size self)) (full (F64.size self) true)
                  (F64.zeros (F64.size self))) as Hlen.
    fold (F64.passes_of self is_token0 amount) in Hlen.
    rewrite Hps, length_app, Nat.add_1_r in Hlen.
    apply le_S_n. exact Hlen. }
  split; [|assumption].
  eapply Forall_impl; [|exact Hall].
  intros [m a'] Hinf. simpl in *. split; [assumption|].
  apply f64_mask_shrinks. assumption.
Qed.

Lemma f64_allocation_terminates_witness :
  F64.aligned F64.pool_three_passes /\
  PrimFloat.leb 0 0 = true /\
  exists r ps mask a,
    F64._calc_tier_amts_in F64.pool_three_passes false 0 = Ok r /\
    F64.passes_of F64.pool_three_passes false 0 = ps ++ [(mask, a)] /\
    (length ps <= 2)%nat.
Proof.
  assert (Hal : F64.aligned F64.pool_three_passes) by (repeat split).
  split; [exact Hal|]. split; [reflexivity|].
  destruct (@f64_allocation_terminates F64.pool_three_passes false 0%float Hal eq_refl)
    as (r & ps & mask & a & _ & H2 & H3 & H4 & _).
  exists r, ps, mask, a. repeat split; assumption.
Defined.

End F64AllocatorClaims.

(* ------------------------------------------------------------------ *)
(** ** Binary64: the swap, field by field *)

Ltac f64len :=
  repeat first [ rewrite NpFacts.length_map2 | rewrite NpFacts.length_map3
               | rewrite length_map | rewrite NpFacts.length_put
               | rewrite repeat_length ];
  first [ lia | rewrite NpFacts.length_where by f64len; f64len ].

Section F64Swap.
Import Np NpFacts.

(** *** Comparisons with zero *)

Lemma f64_le0_not_gt0 x : PrimFloat.leb x 0 = true -> PrimFloat.ltb 0 x = false.
Proof.
  rewrite FloatAxioms.leb_spec, FloatAxioms.ltb_spec.
  change (FloatOps.Prim2SF 0) with (SpecFloat.S754_zero false).
  destruct (FloatOps.Prim2SF x) as [s|s| |s m e];
    unfold SpecFloat.SFleb, SpecFloat.SFltb, SpecFloat.SFcompare;
    try destruct s; simpl; intros H; try discriminate; reflexivity.
Qed.

Lemma f64_gt0_ge0 x : PrimFloat.ltb 0 x = true -> PrimFloat.leb 0 x = true.
Proof.
  rewrite FloatAxioms.leb_spec, FloatAxioms.ltb_spec.
  change (FloatOps.Prim2SF 0) with (SpecFloat.S754_zero false).
  destruct (FloatOps.Prim2SF x) as [s|s| |s m e];
    unfold SpecFloat.SFleb, SpecFloat.SFltb, SpecFloat.SFcompare;
    try destruct s; simpl; intros H; try discriminate; reflexivity.
Qed.

Lemma f64_is_nan_spec x :
  PrimFloat.is_nan x = true <-> FloatOps.Prim2SF x = SpecFloat.S754_nan.
Proof.
  unfold PrimFloat.is_nan. rewrite FloatAxioms.eqb_spec.
  destruct (FloatOps.Prim2SF x) as [s|s| |s m e];
    unfold SpecFloat.SFeqb, SpecFloat.SFcompare.
  - destruct s; simpl; split; discriminate.
  - destruct s; simpl; split; discriminate.
  - simpl; split; reflexivity.
  - rewrite Z.compare_refl, Pos.compare_refl.
    destruct s; simpl; split; discriminate.
Qed.

(** [x > 0] is false exactly when [x <= 0] or [x] is a NaN. *)
Lemma f64_not_gt0 x :
  PrimFloat.ltb 0 x = false <-> (PrimFloat.leb x 0 = true \/ PrimFloat.is_nan x = true).
Proof.
  rewrite f64_is_nan_spec, FloatAxioms.leb_spec, FloatAxioms.ltb_spec.
  change (FloatOps.Prim2SF 0) with (SpecFloat.S754_zero false).
  destruct (FloatOps.Prim2SF x) as [s|s| |s m e];
    unfold SpecFloat.SFleb, SpecFloat.SFltb, SpecFloat.SFcompare;
    try destruct s; simpl; split; intros H; try discriminate; auto;
    destruct H as [H|H]; discriminate.
Qed.

(** *** The allocator's result *)

Lemma f64_calc_tier_amts_in_inv self is_token0 amount amts mask :
  F64._calc_tier_amts_in self is_token0 amount = Ok (amts, mask) ->
  PrimFloat.leb 0 amount = true /\
  exists ps a,
    F64.passes_of self is_token0 amount = ps ++ [(mask, a)] /\
    Forall (fun p => F64.feasible (fst p) (snd p) = false) ps /\
    F64.feasible mask a = true /\
    amts = put_scalar (invert mask) a 0%float /\
    length mask = F64.size self /\ length a = F64.size self /\
    length amts = F64.size self.
Proof.
  intros Hcalc.
  assert (Hamt : PrimFloat.leb 0 amount = true).
  { unfold F64._calc_tier_amts_in in Hcalc.
    destruct (PrimFloat.leb 0 amount); [reflexivity | discriminate]. }
  split; [assumption|].
  destruct (f64_calc_tier_amts_in_passes self is_token0 Hamt)
    as (ps & m & a & Heq & Hps & Hall & Hf).
  rewrite Heq in Hcalc. inversion Hcalc; subst; clear Hcalc.
  exists ps, a.
  pose proof (f64_passes_lengths self is_token0 amount) as Hlen.
  rewrite Hps in Hlen. apply Forall_app in Hlen. destruct Hlen as [_ Hlast].
  inversion Hlast as [|? ? [Hm Ha] _]; subst. simpl in Hm, Ha.
  repeat split; auto. rewrite length_put_scalar. assumption.
Qed.

(** An entry outside the returned mask is exactly 0, and an entry inside it
    has passed the test [>= 0]. *)
Lemma f64_calc_tier_amts_in_entries self is_token0 amount amts mask i :
  F64._calc_tier_amts_in self is_token0 amount = Ok (amts, mask) ->
  (i < F64.size self)%nat ->
  if nth i mask false
  then PrimFloat.leb 0 (nth i amts 0%float) = true
  else nth i amts 0%float = 0%float.
Proof.
  intros Hcalc Hi.
  destruct (f64_calc_tier_amts_in_inv _ _ _ Hcalc)
    as (_ & ps & a & _ & _ & Hf & Hamts & Hm & Ha & _).
  subst amts. rewrite put_scalar_invert by lia.
  rewrite nth_where by (rewrite ?repeat_length; lia).
  destruct (nth i mask false) eqn:Hact; [|apply nth_repeat].
  unfold F64.feasible in Hf. rewrite f64_all_ge0 in Hf.
  rewrite <- Hm in Hi, Ha. clear - Hf Hact Ha Hi.
  revert a i Hf Hact Ha Hi.
  induction mask as [|b m IH]; intros [|x xs] i Hf Hact Ha Hi; simpl in *;
    try lia; try discriminate.
  destruct i as [|i].
  - subst b. simpl in Hf. apply andb_true_iff in Hf. tauto.
  - apply (IH xs i); try lia; try assumption.
    destruct b; simpl in Hf; [apply andb_true_iff in Hf; tauto | assumption].
Qed.

(** *** The swap *)


Lemma f64_swap_rejects is_token0 amt_desired self :
  PrimFloat.ltb 0 amt_desired = false ->
  F64.swap is_token0 amt_desired self = (AssertionError, self).
Proof.
  intros H. unfold F64.swap, F64.bind, F64.assert_. rewrite H. reflexivity.
Qed.

Lemma f64_swap_returns is_token0 amt_desired self :
  PrimFloat.ltb 0 amt_desired = true ->
  exists r self', F64.swap is_token0 amt_desired self = (Ok r, self').
Proof.
  intros H.
  destruct (f64_calc_tier_amts_in_passes self is_token0 (@f64_gt0_ge0 _ H))
    as (ps & mask & a & Hcalc & _).
  unfold F64.swap, F64.bind, F64.assert_, F64.call, F64.get, F64.ret. rewrite H.
  rewrite Hcalc. cbv beta iota zeta. eexists. eexists. reflexivity.
Qed.

Lemma f64_swap_inv is_token0 amt_desired self r self' :
  F64.aligned self ->
  F64.swap is_token0 amt_desired self = (Ok r, self') ->
  PrimFloat.ltb 0 amt_desired = true /\
  exists amts mask,
    F64._calc_tier_amts_in self is_token0 amt_desired = Ok (amts, mask) /\
    F64.size self' = F64.size self /\
    F64.liquidity_arr self' = F64.liquidity_arr self /\
    F64.sqrt_gamma_arr self' = F64.sqrt_gamma_arr self /\
    F64.sqrt_p_arr self'
    = where_ mask
             (map3 (F64.calc_sqrt_p_from_amt is_token0)
                   (F64.sqrt_p_arr self) (F64.liquidity_arr self)
                   (F64.mul amts (F64.sqr (F64.sqrt_gamma_arr self))))
             (F64.sqrt_p_arr self) /\
    F64.fee0_growth_arr self'
    = (if is_token0
       then where_ mask
                   (F64.add (F64.fee0_growth_arr self)
                            (F64.div (F64.sub amts (F64.mul amts (F64.sqr (F64.sqrt_gamma_arr self))))
                                     (F64.liquidity_arr self)))
                   (F64.fee0_growth_arr self)
       else F64.fee0_growth_arr self) /\
    F64.fee1_growth_arr self'
    = (if is_token0
       then F64.fee1_growth_arr self
       else where_ mask
                   (F64.add (F64.fee1_growth_arr self)
                            (F64.div (F64.sub amts (F64.mul amts (F64.sqr (F64.sqrt_gamma_arr self))))
                                     (F64.liquidity_arr self)))
                   (F64.fee1_growth_arr self)) /\
    F64.amts_in r = amts /\
    F64.fee_amts r
    = where_ mask (F64.sub amts (F64.mul amts (F64.sqr (F64.sqrt_gamma_arr self))))
             (F64.zeros (F64.size self)) /\
    F64.amt_in r = F64.sum (select mask amts) /\
    F64.fee_amt r = F64.sum (select mask (F64.fee_amts r)) /\
    F64.fee_bps r = (F64.fee_amt r / F64.amt_in r * 10000)%float.
Proof.
  intros Hal Hswap. pose proof Hal as (HL & HP & HG & HF0 & HF1).
  unfold F64.swap, F64.bind, F64.assert_, F64.call, F64.get, F64.ret in Hswap.
  destruct (PrimFloat.ltb 0 amt_desired) eqn:Hgt; [|discriminate].
  split; [reflexivity|].
  destruct (F64._calc_tier_amts_in self is_token0 amt_desired) as [[amts mask]| |] eqn:Hcalc;
    try discriminate.
  destruct (f64_calc_tier_amts_in_inv _ _ _ Hcalc)
    as (_ & ps & a & _ & _ & _ & _ & Hm & _ & Ha).
  exists amts, mask. split; [reflexivity|].
  unfold F64.set_sqrt_p_arr, F64.add_fee_growth in Hswap.
  simpl in Hswap.
  assert (Hg : length (F64.sqr (F64.sqrt_gamma_arr self)) = F64.size self)
    by (unfold F64.sqr; rewrite length_map; exact HG).
  assert (Hz : length (F64.zeros (F64.size self)) = F64.size self) by apply repeat_length.
  assert (Hagg : F64.amts_in r = amts /\
                 F64.amt_in r = F64.sum (select mask amts) /\
                 F64.fee_amt r = F64.sum (select mask (F64.fee_amts r)) /\
                 F64.fee_bps r = (F64.fee_amt r / F64.amt_in r * 10000)%float).
  { inversion Hswap; subst; clear Hswap. simpl. repeat split; reflexivity. }
  unfold F64.mul, F64.sub, F64.add, F64.div in *.
  rewrite <- (select_map2 PrimFloat.mul mask amts (F64.sqr (F64.sqrt_gamma_arr self)))
    in Hswap by lia.
  rewrite (put_select mask (F64.zeros (F64.size self))
             (map2 PrimFloat.mul amts (F64.sqr (F64.sqrt_gamma_arr self))))
    in Hswap by f64len.
  rewrite (select_where mask (map2 PrimFloat.mul amts (F64.sqr (F64.sqrt_gamma_arr self)))
             (F64.zeros (F64.size self)))
    in Hswap by f64len.
  rewrite <- (select_map2 PrimFloat.sub mask amts) in Hswap by f64len.
  rewrite <- (select_map3 (F64.calc_sqrt_p_from_amt is_token0) mask) in Hswap by f64len.
  rewrite !put_select in Hswap by f64len.
  rewrite !select_where in Hswap by f64len.
  rewrite <- !(select_map2 PrimFloat.div mask) in Hswap by f64len.
  rewrite <- !(select_map2 PrimFloat.add mask) in Hswap by f64len.
  rewrite !put_select in Hswap by f64len.
  rewrite ?where_where in Hswap by f64len.
  inversion Hswap; subst; clear Hswap.
  destruct Hagg as (Hin & Hai & Hfa & Hbps).
  repeat split; first [assumption | simpl; destruct is_token0; reflexivity].
Qed.

(** The swap, tier by tier. *)
Lemma f64_swap_pointwise is_token0 amt_desired self r self' :
  F64.aligned self ->
  F64.swap is_token0 amt_desired self = (Ok r, self') ->
  exists amts mask,
    F64._calc_tier_amts_in self is_token0 amt_desired = Ok (amts, mask) /\
    PrimFloat.ltb 0 amt_desired = true /\
    F64.amts_in r = amts /\
    F64.amt_in r = F64.sum (select mask amts) /\
    F64.fee_amt r = F64.sum (select mask (F64.fee_amts r)) /\
    F64.fee_bps r = (F64.fee_amt r / F64.amt_in r * 10000)%float /\
    F64.aligned self' /\
    F64.size self' = F64.size self /\
    F64.liquidity_arr self' = F64.liquidity_arr self /\
    F64.sqrt_gamma_arr self' = F64.sqrt_gamma_arr self /\
    F64.other_fee_growth_arr is_token0 self' = F64.other_fee_growth_arr is_token0 self /\
    length mask = F64.size self /\
    length (F64.fee_amts r) = F64.size self /\
    forall i, (i < F64.size self)%nat ->
      nth i (F64.sqrt_p_arr self') 0%float
      = (if nth i mask false
         then F64.calc_sqrt_p_from_amt is_token0
                (nth i (F64.sqrt_p_arr self) 0%float) (nth i (F64.liquidity_arr self) 0%float)
                (nth i amts 0 * F64.gamma_at self i)%float
         else nth i (F64.sqrt_p_arr self) 0%float) /\
      nth i (F64.sold_fee_growth_arr is_token0 self') 0%float
      = (if nth i mask false
         then (nth i (F64.sold_fee_growth_arr is_token0 self) 0
               + nth i (F64.fee_amts r) 0 / nth i (F64.liquidity_arr self) 0)%float
         else nth i (F64.sold_fee_growth_arr is_token0 self) 0%float) /\
      nth i (F64.fee_amts r) 0%float
      = (if nth i mask false
         then (nth i amts 0 - nth i amts 0 * F64.gamma_at self i)%float
         else 0%float).
Proof.
  intros Hal Hswap. pose proof Hal as (HL & HP & HG & HF0 & HF1).
  destruct (f64_swap_inv _ _ Hal Hswap)
    as (Hpos & amts & mask & Hcalc & Hsz & Hliq & Hsg & Hsp & Hf0 & Hf1 & Hin & Hfee
        & Hsum & Hfsum & Hbps).
  destruct (f64_calc_tier_amts_in_inv _ _ _ Hcalc)
    as (_ & ps & a & _ & _ & _ & _ & Hm & _ & Ha).
  assert (Hg : length (F64.sqr (F64.sqrt_gamma_arr self)) = F64.size self)
    by (unfold F64.sqr; rewrite length_map; exact HG).
  assert (Hz : length (F64.zeros (F64.size self)) = F64.size self) by apply repeat_length.
  exists amts, mask. repeat (split; [assumption|]).
  split.
  { unfold F64.aligned. rewrite Hsz, Hliq, Hsg, Hsp, Hf0, Hf1.
    unfold F64.add, F64.sub, F64.mul, F64.div.
    destruct is_token0; repeat split; try assumption; f64len. }
  split; [assumption|]. split; [assumption|]. split; [assumption|].
  split; [destruct is_token0; simpl; assumption|].
  split; [assumption|].
  split; [rewrite Hfee; unfold F64.sub, F64.mul; f64len|].
  intros i Hi.
  assert (Hmul : nth i (F64.mul amts (F64.sqr (F64.sqrt_gamma_arr self))) 0%float
                 = (nth i amts 0 * F64.gamma_at self i)%float).
  { unfold F64.mul, F64.sqr, F64.gamma_at.
    rewrite (nth_map2 _ _ _ 0%float 0%float) by f64len.
    rewrite (nth_map_in _ _ 0%float) by lia. reflexivity. }
  assert (Hsub : nth i (F64.sub amts (F64.mul amts (F64.sqr (F64.sqrt_gamma_arr self)))) 0%float
                 = (nth i amts 0 - nth i amts 0 * F64.gamma_at self i)%float).
  { unfold F64.sub. rewrite (nth_map2 _ _ _ 0%float 0%float) by (unfold F64.mul; f64len).
    rewrite Hmul. reflexivity. }
  assert (Hfi : nth i (F64.fee_amts r) 0%float
                = (if nth i mask false
                   then (nth i amts 0 - nth i amts 0 * F64.gamma_at self i)%float
                   else 0%float)).
  { rewrite Hfee, nth_where by (unfold F64.sub, F64.mul; f64len).
    unfold F64.zeros. rewrite Hsub, nth_repeat_in by assumption. reflexivity. }
  assert (Hgrow : forall fee, length fee = F64.size self ->
            nth i (F64.add fee
                     (F64.div (F64.sub amts (F64.mul amts (F64.sqr (F64.sqrt_gamma_arr self))))
                              (F64.liquidity_arr self))) 0%float
            = (nth i fee 0
               + (nth i amts 0 - nth i amts 0 * F64.gamma_at self i)
                 / nth i (F64.liquidity_arr self) 0)%float).
  { intros fee Hfl. unfold F64.add, F64.div.
    rewrite (nth_map2 _ _ _ 0%float 0%float) by (unfold F64.sub, F64.mul; f64len).
    rewrite (nth_map2 _ _ _ 0%float 0%float) by (unfold F64.sub, F64.mul; f64len).
    rewrite Hsub. reflexivity. }
  repeat split.
  - rewrite Hsp, nth_where by (unfold F64.mul; f64len).
    rewrite (nth_map3 _ _ _ _ 0%float 0%float 0%float) by (unfold F64.mul; f64len).
    rewrite Hmul. reflexivity.
  - rewrite Hfi.
    destruct is_token0; simpl; rewrite ?Hf0, ?Hf1;
      rewrite nth_where by (unfold F64.add, F64.div, F64.sub, F64.mul; f64len);
      rewrite Hgrow by assumption; destruct (nth i mask false); reflexivity.
  - exact Hfi.
Qed.

(** An empty mask selects nothing and writes nothing. *)
Lemma select_count_0 (A : Type) mask (xs : list A) :
  count mask = 0%nat -> select mask xs = [].
Proof.
  unfold count. revert xs; induction mask as [|b m IH]; intros [|x xs] H; simpl in *;
    try reflexivity; destruct b; simpl in H; try discriminate; auto.
Qed.

Lemma where_count_0 (A : Type) mask (xs ys : list A) :
  length mask = length xs -> length mask = length ys ->
  count mask = 0%nat -> where_ mask xs ys = ys.
Proof.
  unfold count. revert xs ys; induction mask as [|b m IH]; intros [|x xs] [|y ys] Hx Hy H;
    simpl in *; try discriminate; try reflexivity.
  destruct b; simpl in H; [discriminate|]. f_equal. apply IH; auto.
Qed.

Lemma nth_count_0 mask i : count mask = 0%nat -> nth i mask false = false.
Proof.
  unfold count. revert i; induction mask as [|b m IH]; intros [|i] H; simpl in *;
    try reflexivity; destruct b; simpl in H; try discriminate; auto.
Qed.

(** A pass that does not break ran on at least one active tier. *)
Lemma f64_infeasible_nonempty mask amts :
  F64.feasible mask amts = false -> (0 < count mask)%nat.
Proof. intros H. apply f64_mask_shrinks in H. lia. Qed.



End F64Swap.

(* ------------------------------------------------------------------ *)
(** ** Swap, binary64: price movement, failure, fee growth, empty mask *)

Section F64SwapClaims.
Import Np NpFacts.


Lemma f64_pool_mask_empties_aligned : F64.aligned F64.pool_mask_empties.
Proof. repeat split. Qed.





(** C7, as stated, fails on the program's numbers.  [amt_desired > 0] is
    false for a NaN, so [swap(True, nan)] raises although [nan <= 0] is
    false. *)
Lemma f64_swap_rejects_nan :
  PrimFloat.leb PrimFloat.nan 0 = false /\
  F64.aligned F64.default_pool /\
  F64.swap true PrimFloat.nan F64.default_pool = (AssertionError, F64.default_pool) /\
  failed (fst (F64.swap true PrimFloat.nan F64.default_pool)) = true.
Proof.
  split; [reflexivity|]. split; [exact f64_default_pool_aligned|].
  split; vm_compute; reflexivity.
Qed.

(** C7, amended.  On a pool whose arrays all have [size] entries,
    [swap(is_token0, amt_desired)] fails if and only if [amt_desired > 0] is
    false, that is if and only if [amt_desired <= 0] or [amt_desired] is a
    NaN; and when it fails it fails at the assertion of line 34, before any
    state mutation: the pool is left exactly as it was. *)
Theorem f64_swap_fails_iff is_token0 amt_desired self :
  F64.aligned self ->
  (failed (fst (F64.swap is_token0 amt_desired self)) = true
   <-> (PrimFloat.leb amt_desired 0 = true \/ PrimFloat.is_nan amt_desired = true)) /\
  (failed (fst (F64.swap is_token0 amt_desired self)) = true ->
   F64.swap is_token0 amt_desired self = (AssertionError, self)).
Proof.
  intros _. rewrite <- f64_not_gt0.
  destruct (PrimFloat.ltb 0 amt_desired) eqn:Hgt.
  - destruct (f64_swap_returns is_token0 self Hgt) as (r & self' & Hrun).
    rewrite Hrun. simpl. split; [split|]; discriminate.
  - rewrite (f64_swap_rejects is_token0 self Hgt). simpl.
    split; [split|]; reflexivity.
Qed.

Lemma f64_swap_fails_iff_witness :
  F64.aligned F64.default_pool /\
  F64.swap true PrimFloat.nan F64.default_pool = (AssertionError, F64.default_pool).
Proof.
  split; [exact f64_default_pool_aligned|].
  destruct (@f64_swap_fails_iff true PrimFloat.nan F64.default_pool f64_default_pool_aligned)
    as [Hiff Hfail].
  apply Hfail. apply Hiff. right. reflexivity.
Defined.




(** C10, as stated, fails on the program's numbers.  On the valid pool
    [Pool([2**60], [0.875], 3.0)], for 1.0 of token1, the first pass assigns
    -512.0 to the one tier, the mask becomes empty and the second pass breaks
    on it with the sum of weights 0.0; [swap(False, 1)] then returns
    [amt_in = 0.0] and [fee_bps = nan] for an amount that is [> 0]. *)
Lemma f64_mask_empties_on_valid_pool :
  F64.valid_numbers F64.pool_mask_empties = true /\
  F64.aligned F64.pool_mask_empties /\
  PrimFloat.ltb 0 1 = true /\
  F64.passes_of F64.pool_mask_empties false 1
  = [([true], [(-512)%float]); ([false], [(-512)%float])] /\
  F64._calc_tier_amts_in F64.pool_mask_empties false 1 = Ok ([0%float], [false]) /\
  count [false] = 0%nat /\
  F64.sum (select [false] (F64.lsg_of F64.pool_mask_empties)) = 0%float /\
  exists r self',
    F64.swap false 1 F64.pool_mask_empties = (Ok r, self') /\
    F64.amt_in r = 0%float /\
    PrimFloat.ltb 0 (F64.amt_in r) = false /\
    PrimFloat.is_nan (F64.fee_bps r) = true.
Proof.
  split; [reflexivity|]. split; [exact f64_pool_mask_empties_aligned|].
  split; [reflexivity|]. split; [vm_compute; reflexivity|].
  split; [vm_compute; reflexivity|]. split; [reflexivity|].
  split; [vm_compute; reflexivity|].
  eexists. eexists. split; [vm_compute; reflexivity|].
  repeat split; vm_compute; reflexivity.
Qed.

(** C10, amended.  On a pool whose arrays all have [size] entries and for
    an amount that passes the assertion, every pass of the allocator's loop
    except the last runs on a non-empty mask.  The last pass can run on the
    empty mask; the sum of the active weights is then 0.0, the allocator
    returns zeros, and a swap of that amount returns with the pool unchanged,
    [amt_in = 0], [fee_amt = 0] and [fee_bps] a NaN. *)
Theorem f64_active_mask_nonempty self is_token0 amount :
  F64.aligned self ->
  PrimFloat.leb 0 amount = true ->
  exists amts mask ps a,
    F64._calc_tier_amts_in self is_token0 amount = Ok (amts, mask) /\
    F64.passes_of self is_token0 amount = ps ++ [(mask, a)] /\
    Forall (fun p => (0 < count (fst p))%nat) ps /\
    (count mask = 0%nat ->
     F64.sum (select mask (F64.lsg_of self)) = 0%float /\
     amts = F64.zeros (F64.size self) /\
     forall r self',
       F64.swap is_token0 amount self = (Ok r, self') ->
       self' = self /\
       F64.amt_in r = 0%float /\
       F64.fee_amt r = 0%float /\
       PrimFloat.is_nan (F64.fee_bps r) = true).
Proof.
  intros Hal Hamt. pose proof Hal as (HL & HP & HG & HF0 & HF1).
  destruct (f64_calc_tier_amts_in_passes self is_token0 Hamt)
    as (ps & mask & a & Hcalc & Hps & Hall & Hf).
  destruct (f64_calc_tier_amts_in_inv _ _ _ Hcalc)
    as (_ & _ & _ & _ & _ & _ & _ & Hm & _ & Ha).
  exists (put_scalar (invert mask) a 0%float), mask, ps, a.
  split; [assumption|]. split; [assumption|]. split.
  { eapply Forall_impl; [|exact Hall]. intros [m a'] Hinf. simpl in *.
    eapply f64_infeasible_nonempty. eassumption. }
  intros Hempty.
  assert (Hzero : put_scalar (invert mask) a 0%float = F64.zeros (F64.size self)).
  { rewrite length_put_scalar in Ha.
    rewrite put_scalar_invert by lia.
    rewrite where_count_0 by (rewrite ?repeat_length; lia || assumption).
    rewrite Hm. reflexivity. }
  split; [rewrite (@select_count_0 _ mask _ Hempty); reflexivity|].
  split; [assumption|].
  intros r self' Hswap.
  destruct (f64_swap_inv _ _ Hal Hswap)
    as (_ & amts' & mask' & Hcalc' & Hsz & Hliq & Hsg & Hsp & Hf0 & Hf1 & _ & Hfee
        & Hsum & Hfsum & Hbps).
  rewrite Hcalc in Hcalc'. inversion Hcalc'; subst amts' mask'; clear Hcalc'.
  assert (Hg : length (F64.sqr (F64.sqrt_gamma_arr self)) = F64.size self)
    by (unfold F64.sqr; rewrite length_map; exact HG).
  assert (Hz : length (F64.zeros (F64.size self)) = F64.size self) by apply repeat_length.
  rewrite length_put_scalar in Ha.
  assert (Ha' : length (put_scalar (invert mask) a 0%float) = F64.size self)
    by (rewrite length_put_scalar; exact Ha).
  rewrite where_count_0 in Hsp
    by first [assumption | unfold F64.mul; f64len].
  assert (Hf0' : F64.fee0_growth_arr self' = F64.fee0_growth_arr self).
  { destruct is_token0; [|assumption]. rewrite Hf0.
    apply where_count_0;
      first [assumption | unfold F64.add, F64.div, F64.sub, F64.mul; f64len]. }
  assert (Hf1' : F64.fee1_growth_arr self' = F64.fee1_growth_arr self).
  { destruct is_token0; [assumption|]. rewrite Hf1.
    apply where_count_0;
      first [assumption | unfold F64.add, F64.div, F64.sub, F64.mul; f64len]. }
  rewrite (@select_count_0 _ mask _ Hempty) in Hsum.
  rewrite (@select_count_0 _ mask _ Hempty) in Hfsum.
  split; [|split; [|split]].
  - destruct self, self'; simpl in *. congruence.
  - rewrite Hsum. reflexivity.
  - rewrite Hfsum. reflexivity.
  - rewrite Hbps, Hsum, Hfsum. reflexivity.
Qed.

Lemma f64_active_mask_nonempty_witness :
  F64.aligned F64.pool_mask_empties /\
  PrimFloat.leb 0 1 = true /\
  exists amts mask ps a,
    F64._calc_tier_amts_in F64.pool_mask_empties false 1 = Ok (amts, mask) /\
    F64.passes_of F64.pool_mask_empties false 1 = ps ++ [(mask, a)] /\
    Forall (fun p => (0 < count (fst p))%nat) ps.
Proof.
  split; [exact f64_pool_mask_empties_aligned|]. split; [reflexivity|].
  destruct (@f64_active_mask_nonempty F64.pool_mask_empties false 1%float
              f64_pool_mask_empties_aligned eq_refl)
    as (amts & mask & ps & a & H1 & H2 & H3 & _).
  exists amts, mask, ps, a. repeat split; assumption.
Defined.

End F64SwapClaims.

(* ------------------------------------------------------------------ *)
(** ** Binary64: what the tests and the masked writes alone give *)

Section F64Structure.
Import Np NpFacts.

(** [x >= 0] is false exactly when [x < 0] or [x] is a NaN. *)
Lemma f64_not_ge0 x :
  PrimFloat.leb 0 x = false <-> (PrimFloat.ltb x 0 = true \/ PrimFloat.is_nan x = true).
Proof.
  rewrite f64_is_nan_spec, FloatAxioms.leb_spec, FloatAxioms.ltb_spec.
  change (FloatOps.Prim2SF 0) with (SpecFloat.S754_zero false).
  destruct (FloatOps.Prim2SF x) as [s|s| |s m e];
    unfold SpecFloat.SFleb, SpecFloat.SFltb, SpecFloat.SFcompare;
    try destruct s; simpl; split; intros H; try discriminate; auto;
    destruct H as [H|H]; discriminate.
Qed.

Lemma f64_swap_amts_out is_token0 amt_desired self r self' :
  F64.aligned self ->
  F64.swap is_token0 amt_desired self = (Ok r, self') ->
  exists amts mask,
    F64._calc_tier_amts_in self is_token0 amt_desired = Ok (amts, mask) /\
    F64.amts_out r
    = where_ mask
             (map3 (F64.calc_amt_from_sqrt_p (negb is_token0))
                   (F64.sqrt_p_arr self)
                   (map3 (F64.calc_sqrt_p_from_amt is_token0)
                         (F64.sqrt_p_arr self) (F64.liquidity_arr self)
                         (F64.mul amts (F64.sqr (F64.sqrt_gamma_arr self))))
                   (F64.liquidity_arr self))
             (F64.zeros (F64.size self)) /\
    F64.amt_out r = F64.sum (select mask (F64.amts_out r)).
Proof.
  intros Hal Hswap. pose proof Hal as (HL & HP & HG & HF0 & HF1).
  unfold F64.swap, F64.bind, F64.assert_, F64.call, F64.get, F64.ret in Hswap.
  destruct (PrimFloat.ltb 0 amt_desired) eqn:Hgt; [|discriminate].
  destruct (F64._calc_tier_amts_in self is_token0 amt_desired) as [[amts mask]| |] eqn:Hcalc;
    try discriminate.
  destruct (f64_calc_tier_amts_in_inv _ _ _ Hcalc)
    as (_ & ps & a & _ & _ & _ & _ & Hm & _ & Ha).
  exists amts, mask. split; [reflexivity|].
  unfold F64.set_sqrt_p_arr, F64.add_fee_growth in Hswap.
  simpl in Hswap.
  assert (Hg : length (F64.sqr (F64.sqrt_gamma_arr self)) = F64.size self)
    by (unfold F64.sqr; rewrite length_map; exact HG).
  assert (Hz : length (F64.zeros (F64.size self)) = F64.size self) by apply repeat_length.
  assert (Hagg : F64.amt_out r = F64.sum (select mask (F64.amts_out r))).
  { inversion Hswap; subst; clear Hswap. reflexivity. }
  unfold F64.mul, F64.sub, F64.add, F64.div in *.
  rewrite <- (select_map2 PrimFloat.mul mask amts (F64.sqr (F64.sqrt_gamma_arr self)))
    in Hswap by lia.
  rewrite (put_select mask (F64.zeros (F64.size self))
             (map2 PrimFloat.mul amts (F64.sqr (F64.sqrt_gamma_arr self))))
    in Hswap by f64len.
  rewrite (select_where mask (map2 PrimFloat.mul amts (F64.sqr (F64.sqrt_gamma_arr self)))
             (F64.zeros (F64.size self)))
    in Hswap by f64len.
  rewrite <- (select_map3 (F64.calc_sqrt_p_from_amt is_token0) mask) in Hswap by f64len.
  rewrite !put_select in Hswap by f64len.
  rewrite !select_where in Hswap by f64len.
  rewrite <- (select_map3 (F64.calc_amt_from_sqrt_p (negb is_token0)) mask) in Hswap
    by f64len.
  rewrite !put_select in Hswap by f64len.
  split; [|exact Hagg].
  inversion Hswap; subst; clear Hswap. reflexivity.
Qed.

(** X20.  The allocator on binary64 numbers returns, for every amount that
    passes its assertion, amounts that have all passed the test [>= 0] (so
    none is negative and none is a NaN), with exactly 0 outside the returned
    mask. *)
Theorem f64_allocation_nonneg self is_token0 amount :
  F64.aligned self ->
  PrimFloat.leb 0 amount = true ->
  exists amts mask,
    F64._calc_tier_amts_in self is_token0 amount = Ok (amts, mask) /\
    length amts = F64.size self /\
    length mask = F64.size self /\
    forall i, (i < F64.size self)%nat ->
      PrimFloat.leb 0 (nth i amts 0%float) = true /\
      (nth i mask false = false -> nth i amts 0%float = 0%float).
Proof.
  intros _ Hamt.
  destruct (f64_calc_tier_amts_in_passes self is_token0 Hamt)
    as (ps & mask & a & Hcalc & _).
  destruct (f64_calc_tier_amts_in_inv _ _ _ Hcalc)
    as (_ & _ & _ & _ & _ & _ & _ & Hm & _ & Ha).
  exists (put_scalar (invert mask) a 0%float), mask.
  split; [assumption|]. split; [assumption|]. split; [assumption|].
  intros i Hi.
  pose proof (@f64_calc_tier_amts_in_entries _ _ _ _ _ i Hcalc Hi) as Hent.
  destruct (nth i mask false).
  - split; [assumption | discriminate].
  - rewrite Hent. split; reflexivity.
Qed.

Lemma f64_allocation_nonneg_witness :
  F64.aligned F64.pool_mask_empties /\
  PrimFloat.leb 0 1 = true /\
  exists amts mask,
    F64._calc_tier_amts_in F64.pool_mask_empties false 1 = Ok (amts, mask) /\
    forall i, (i < 1)%nat ->
      PrimFloat.leb 0 (nth i amts 0%float) = true /\
      (nth i mask false = false -> nth i amts 0%float = 0%float).
Proof.
  split; [exact f64_pool_mask_empties_aligned|]. split; [reflexivity|].
  destruct (@f64_allocation_nonneg F64.pool_mask_empties false 1%float
              f64_pool_mask_empties_aligned eq_refl) as (amts & mask & H1 & _ & _ & H4).
  exists amts, mask. split; assumption.
Defined.

(** X21.  The allocator on binary64 numbers fails exactly when
    [amount >= 0] is false, that is for a negative amount and for a NaN; it
    then fails at its assertion, and for every other amount it returns. *)
Theorem f64_allocation_fails_iff self is_token0 amount :
  F64.aligned self ->
  (failed (F64._calc_tier_amts_in self is_token0 amount) = true
   <-> (PrimFloat.ltb amount 0 = true \/ PrimFloat.is_nan amount = true)) /\
  (failed (F64._calc_tier_amts_in self is_token0 amount) = true ->
   F64._calc_tier_amts_in self is_token0 amount = AssertionError).
Proof.
  intros _. rewrite <- f64_not_ge0.
  destruct (PrimFloat.leb 0 amount) eqn:Hge.
  - destruct (f64_calc_tier_amts_in_passes self is_token0 Hge)
      as (ps & mask & a & Hcalc & _).
    rewrite Hcalc. simpl. split; [split|]; discriminate.
  - unfold F64._calc_tier_amts_in. rewrite Hge. simpl.
    split; [split|]; reflexivity.
Qed.

Lemma f64_allocation_fails_iff_witness :
  F64.aligned F64.default_pool /\
  F64._calc_tier_amts_in F64.default_pool true PrimFloat.nan = AssertionError /\
  F64._calc_tier_amts_in F64.default_pool true (-1) = AssertionError.
Proof.
  split; [exact f64_default_pool_aligned|].
  split.
  - destruct (@f64_allocation_fails_iff F64.default_pool true PrimFloat.nan
                f64_default_pool_aligned) as [Hiff Hfail].
    apply Hfail. apply Hiff. right. reflexivity.
  - destruct (@f64_allocation_fails_iff F64.default_pool true (-1)%float
                f64_default_pool_aligned) as [Hiff Hfail].
    apply Hfail. apply Hiff. left. reflexivity.
Defined.

(** X22.  A swap on binary64 numbers that returns changes, of the pool, only
    the sqrt prices of the tiers in the allocator's mask and the same tiers'
    entries of the sold token's accumulator, which become
    [entry + fee_amts[i] / liquidity[i]]. *)
Theorem f64_swap_frame is_token0 amt_desired self r self' :
  F64.aligned self ->
  F64.swap is_token0 amt_desired self = (Ok r, self') ->
  F64.size self' = F64.size self /\
  F64.liquidity_arr self' = F64.liquidity_arr self /\
  F64.sqrt_gamma_arr self' = F64.sqrt_gamma_arr self /\
  F64.other_fee_growth_arr is_token0 self' = F64.other_fee_growth_arr is_token0 self /\
  exists mask,
    F64._calc_tier_amts_in self is_token0 amt_desired = Ok (F64.amts_in r, mask) /\
    forall i, (i < F64.size self)%nat ->
      (nth i mask false = false ->
       nth i (F64.sqrt_p_arr self') 0%float = nth i (F64.sqrt_p_arr self) 0%float /\
       nth i (F64.sold_fee_growth_arr is_token0 self') 0%float
       = nth i (F64.sold_fee_growth_arr is_token0 self) 0%float) /\
      (nth i mask false = true ->
       nth i (F64.sold_fee_growth_arr is_token0 self') 0%float
       = (nth i (F64.sold_fee_growth_arr is_token0 self) 0
          + nth i (F64.fee_amts r) 0 / nth i (F64.liquidity_arr self) 0)%float).
Proof.
  intros Hal Hswap.
  destruct (f64_swap_pointwise _ _ Hal Hswap)
    as (amts & mask & Hcalc & _ & Hin & _ & _ & _ & _ & Hsz & Hliq & Hsg & Hother & _ & _
        & Hpt).
  repeat (split; [assumption|]).
  exists mask. rewrite Hin. split; [assumption|].
  intros i Hi. destruct (Hpt i Hi) as (Hp & Hsold & _).
  split; intros Hact; rewrite Hact in *; auto.
Qed.

Lemma f64_swap_frame_witness :
  F64.aligned F64.default_pool /\
  exists r self',
    F64.swap true 1000 F64.default_pool = (Ok r, self') /\
    F64.liquidity_arr self' = F64.liquidity_arr F64.default_pool /\
    F64.other_fee_growth_arr true self' = F64.other_fee_growth_arr true F64.default_pool.
Proof.
  split; [exact f64_default_pool_aligned|].
  destruct (@f64_swap_returns true 1000%float F64.default_pool eq_refl) as (r & p' & Hrun).
  exists r, p'. split; [exact Hrun|].
  destruct (@f64_swap_frame true 1000%float F64.default_pool r p'
              f64_default_pool_aligned Hrun) as (_ & H2 & _ & H4 & _).
  split; assumption.
Defined.

(** X23.  The arrays of a swap result on binary64 numbers: [amts_in] is the
    allocator's array; at a tier of the mask [fee_amts] holds
    [amts_in[i] - amts_in[i] * gamma[i]] and [amts_out] holds the amount
    [calc_amt_from_sqrt_p] computes, for the other token, from the tier's
    sqrt prices before and after the swap; outside the mask all three hold 0;
    and the totals are [np.sum] over the tiers of the mask. *)
Theorem f64_swap_result_arrays is_token0 amt_desired self r self' :
  F64.aligned self ->
  F64.swap is_token0 amt_desired self = (Ok r, self') ->
  exists mask,
    F64._calc_tier_amts_in self is_token0 amt_desired = Ok (F64.amts_in r, mask) /\
    F64.amt_in r = F64.sum (select mask (F64.amts_in r)) /\
    F64.amt_out r = F64.sum (select mask (F64.amts_out r)) /\
    F64.fee_amt r = F64.sum (select mask (F64.fee_amts r)) /\
    F64.fee_bps r = (F64.fee_amt r / F64.amt_in r * 10000)%float /\
    forall i, (i < F64.size self)%nat ->
      if nth i mask false
      then nth i (F64.fee_amts r) 0%float
           = (nth i (F64.amts_in r) 0 - nth i (F64.amts_in r) 0 * F64.gamma_at self i)%float /\
           nth i (F64.amts_out r) 0%float
           = F64.calc_amt_from_sqrt_p (negb is_token0)
               (nth i (F64.sqrt_p_arr self) 0%float)
               (nth i (F64.sqrt_p_arr self') 0%float)
               (nth i (F64.liquidity_arr self) 0%float)
      else nth i (F64.amts_in r) 0%float = 0%float /\
           nth i (F64.fee_amts r) 0%float = 0%float /\
           nth i (F64.amts_out r) 0%float = 0%float.
Proof.
  intros Hal Hswap. pose proof Hal as (HL & HP & HG & HF0 & HF1).
  destruct (f64_swap_pointwise _ _ Hal Hswap)
    as (amts & mask & Hcalc & _ & Hin & Hsum & Hfsum & Hbps & _ & _ & _ & _ & _ & Hm & _
        & Hpt).
  destruct (f64_swap_amts_out _ _ Hal Hswap) as (amts' & mask' & Hcalc' & Hout & Hosum).
  rewrite Hcalc in Hcalc'. inversion Hcalc'; subst amts' mask'; clear Hcalc'.
  destruct (f64_calc_tier_amts_in_inv _ _ _ Hcalc)
    as (_ & _ & _ & _ & _ & _ & _ & _ & _ & Ha).
  assert (Hg : length (F64.sqr (F64.sqrt_gamma_arr self)) = F64.size self)
    by (unfold F64.sqr; rewrite length_map; exact HG).
  exists mask. rewrite Hin.
  repeat (split; [assumption|]).
  intros i Hi. destruct (Hpt i Hi) as (Hp & _ & Hfee).
  pose proof (@f64_calc_tier_amts_in_entries _ _ _ _ _ i Hcalc Hi) as Hent.
  assert (Ho : nth i (F64.amts_out r) 0%float
               = if nth i mask false
                 then F64.calc_amt_from_sqrt_p (negb is_token0)
                        (nth i (F64.sqrt_p_arr self) 0%float)
                        (F64.calc_sqrt_p_from_amt is_token0
                           (nth i (F64.sqrt_p_arr self) 0%float)
                           (nth i (F64.liquidity_arr self) 0%float)
                           (nth i amts 0 * F64.gamma_at self i)%float)
                        (nth i (F64.liquidity_arr self) 0%float)
                 else 0%float).
  { rewrite Hout. unfold F64.mul.
    rewrite nth_where by (unfold F64.zeros; f64len).
    destruct (nth i mask false); [|apply nth_repeat_in; assumption].
    rewrite (nth_map3 _ _ _ _ 0%float 0%float 0%float) by f64len.
    rewrite (nth_map3 _ _ _ _ 0%float 0%float 0%float) by f64len.
    rewrite (nth_map2 _ _ _ 0%float 0%float) by f64len.
    unfold F64.sqr, F64.gamma_at. rewrite (nth_map_in _ _ 0%float) by lia.
    reflexivity. }
  destruct (nth i mask false).
  - split; [assumption|]. rewrite Ho, Hp. reflexivity.
  - repeat split; assumption.
Qed.

Lemma f64_swap_result_arrays_witness :
  F64.aligned F64.pool_mask_empties /\
  exists r self' mask,
    F64.swap false 1 F64.pool_mask_empties = (Ok r, self') /\
    F64._calc_tier_amts_in F64.pool_mask_empties false 1 = Ok (F64.amts_in r, mask) /\
    F64.amt_in r = F64.sum (select mask (F64.amts_in r)).
Proof.
  split; [exact f64_pool_mask_empties_aligned|].
  destruct (@f64_swap_returns false 1%float F64.pool_mask_empties eq_refl)
    as (r & p' & Hrun).
  destruct (@f64_swap_result_arrays false 1%float F64.pool_mask_empties r p'
              f64_pool_mask_empties_aligned Hrun) as (mask & H1 & H2 & _).
  exists r, p', mask. repeat split; assumption.
Defined.


(** X25.  [Pool.price] of a pool without tiers is a NaN: both sums are 0.0. *)
Theorem f64_price_without_tiers self :
  F64.aligned self ->
  F64.size self = 0%nat ->
  PrimFloat.is_nan (F64.price self) = true.
Proof.
  intros (HL & HP & _) Hsz. rewrite Hsz in HL, HP.
  unfold F64.price, F64.prices.
  destruct (F64.liquidity_arr self); [|discriminate].
  destruct (F64.sqrt_p_arr self); [|discriminate].
  reflexivity.
Qed.

Lemma f64_price_without_tiers_witness :
  F64.aligned (F64.mkPool 0 [] [] [] [] []) /\
  PrimFloat.is_nan (F64.price (F64.mkPool 0 [] [] [] [] [])) = true.
Proof.
  assert (Hal : F64.aligned (F64.mkPool 0 [] [] [] [] [])) by (repeat split).
  split; [exact Hal|].
  exact (@f64_price_without_tiers (F64.mkPool 0 [] [] [] [] []) Hal eq_refl).
Defined.

End F64Structure.
